(** * Event capacity and registration consistency

    A shallow embedding of the event/registration part of the backend:
    the Mongoose schemas [models/Event.js] and [models/EventRegistration.js],
    the handlers [registerForEvent], [cancelRegistration], [updateEvent] and
    [getEvents] of [controllers/eventController.js], and the route table of
    [routes/eventRoutes.js].

    Modelling conventions.
    - A MongoDB ObjectId is a [nat]; fresh ids come from a counter kept in
      the database state.  Requests carry well-formed ids.
    - A JavaScript Number that holds a count or an amount is a [Z].
    - A JavaScript string is a [string] of ASCII characters; [trim],
      [toLowerCase] and [toUpperCase] act on ASCII.  A field of a request
      body is a string or is absent ([None]).
    - The random part of a ticket id is an argument of the request.
    - Every handler is a tree of store calls: each [await] of the source is
      one [Await] node, and the code between two [await]s runs atomically
      (Node.js runs one handler at a time between suspension points).
      [exec] runs a handler to completion without interruption; [schedule]
      interleaves several handlers at their [await]s. *)

From stdpp Require Import gmap strings list fin_maps sorting.
From Stdlib Require Import ZArith Ascii String Permutation.

Open Scope string_scope.
Open Scope Z_scope.

(** ** JavaScript string helpers *)

Module Js.

Definition isSpace (c : ascii) : bool :=
let n := N_of_ascii c in
(N.eqb n 32 || (N.leb 9 n && N.leb n 13))%bool.

Definition lowerChar (c : ascii) : ascii :=
let n := N_of_ascii c in
if (N.leb 65 n && N.leb n 90)%bool then ascii_of_N (n + 32) else c.

Definition upperChar (c : ascii) : ascii :=
let n := N_of_ascii c in
if (N.leb 97 n && N.leb n 122)%bool then ascii_of_N (n - 32) else c.

Fixpoint mapChars (f : ascii -> ascii) (s : string) : string :=
match s with
| EmptyString => EmptyString
| String c t => String (f c) (mapChars f t)
end.

Definition toLowerCase : string -> string := mapChars lowerChar.
Definition toUpperCase : string -> string := mapChars upperChar.

Fixpoint trimStart (s : string) : string :=
match s with
| EmptyString => EmptyString
| String c t => if isSpace c then trimStart t else s
end.

Fixpoint revString (acc s : string) : string :=
match s with
| EmptyString => acc
| String c t => revString (String c acc) t
end.

Definition trim (s : string) : string :=
revString EmptyString (trimStart (revString EmptyString (trimStart s))).

(** [s.substring(0, n)] *)
Fixpoint prefix (n : nat) (s : string) : string :=
match n, s with
| S n', String c t => String c (prefix n' t)
| _, _ => EmptyString
end.

Fixpoint allChars (p : ascii -> bool) (s : string) : bool :=
match s with
| EmptyString => true
| String c t => p c && allChars p t
end.

End Js.

(** ** The schemas *)

Definition ObjectId := nat.
Bind Scope nat_scope with ObjectId.

Module EventStatus.
Inductive t := draft | published | cancelled | completed.

Definition eqb (a b : t) : bool :=
  match a, b with
  | draft, draft | published, published
  | cancelled, cancelled | completed, completed => true
  | _, _ => false
  end.

Definition toString (s : t) : string :=
  match s with
  | draft => "draft"
  | published => "published"
  | cancelled => "cancelled"
  | completed => "completed"
  end.

(** the [enum] validator of the [status] path *)
Definition ofString (s : string) : option t :=
  if String.eqb s "draft" then Some draft
  else if String.eqb s "published" then Some published
  else if String.eqb s "cancelled" then Some cancelled
  else if String.eqb s "completed" then Some completed
  else None.
End EventStatus.

Module RegStatus.
Inductive t := confirmed | cancelled | waitlisted.

Definition eqb (a b : t) : bool :=
  match a, b with
  | confirmed, confirmed | cancelled, cancelled | waitlisted, waitlisted => true
  | _, _ => false
  end.
End RegStatus.

Module PaymentStatus.
Inductive t := pending | paid | failed | refunded.
End PaymentStatus.

(** [models/Event.js].  The paths kept are the ones read or written by the
    registration handlers and by the listing. *)
Module Event.
Record t := mk {
  _id : ObjectId;
  title : string;
  slug : string;
  fullDescription : option string;
  date : string;
  price : Z;                      (* default 0, min 0 *)
  isFree : bool;                  (* default true *)
  maxAttendees : option Z;        (* default null, min 1 *)
  currentAttendees : Z;           (* default 0, no validator *)
  featured : bool;                (* default false *)
  status : EventStatus.t;         (* default draft *)
  registrationOpen : bool         (* default true *)
}.

Definition set_currentAttendees (n : Z) (e : t) : t :=
  mk (_id e) (title e) (slug e) (fullDescription e) (date e) (price e)
     (isFree e) (maxAttendees e) n (featured e) (status e)
     (registrationOpen e).

(** [{ $inc: { currentAttendees: d } }] *)
Definition inc_currentAttendees (d : Z) (e : t) : t :=
  set_currentAttendees (currentAttendees e + d) e.

(** [.select('-fullDescription')] *)
Definition without_fullDescription (e : t) : t :=
  mk (_id e) (title e) (slug e) None (date e) (price e)
     (isFree e) (maxAttendees e) (currentAttendees e) (featured e)
     (status e) (registrationOpen e).

(** JavaScript truthiness of [this.maxAttendees]: [null] and [0] are falsy. *)
Definition maxAttendees_truthy (e : t) : bool :=
  match maxAttendees e with
  | None => false
  | Some m => negb (m =? 0)
  end.

(** virtual [spotsLeft] *)
Definition spotsLeft (e : t) : option Z :=
  if maxAttendees_truthy e
  then (fun m => m - currentAttendees e) <$> maxAttendees e
  else None.

(** virtual [isSoldOut] *)
Definition isSoldOut (e : t) : bool :=
  match maxAttendees e with
  | Some m => negb (m =? 0) && (m <=? currentAttendees e)
  | None => false
  end.

(** the [min: [1, ...]] validator of [maxAttendees] ([null] passes) *)
Definition maxAttendees_valid (m : option Z) : bool :=
  match m with
  | None => true
  | Some n => 1 <=? n
  end.
End Event.

(** [models/EventRegistration.js] *)
Module EventRegistration.
Record t := mk {
  _id : ObjectId;
  event : ObjectId;
  firstName : string;
  lastName : string;
  email : string;
  phone : option string;
  accessibilityNeeds : option string;
  ticketId : string;
  status : RegStatus.t;           (* default confirmed *)
  paymentStatus : PaymentStatus.t; (* default pending *)
  amount : Z                      (* default 0 *)
}.

Definition set_status (s : RegStatus.t) (r : t) : t :=
  mk (_id r) (event r) (firstName r) (lastName r) (email r) (phone r)
     (accessibilityNeeds r) (ticketId r) s (paymentStatus r) (amount r).

(** The object literal handed to [EventRegistration.create]; [status] and
    [paymentStatus] may be left out, the schema defaults then apply. *)
Record doc := mkDoc {
  d_event : ObjectId;
  d_firstName : option string;
  d_lastName : option string;
  d_email : option string;
  d_phone : option string;
  d_accessibilityNeeds : option string;
  d_status : option RegStatus.t;
  d_paymentStatus : option PaymentStatus.t;
  d_amount : Z
}.

(** The [match] validator of [email]: [/^\S+@\S+\.\S+$/]. *)
Fixpoint dotThenMore (s : string) : bool :=
  match s with
  | EmptyString => false
  | String c t =>
      (Ascii.eqb c "." && negb (String.eqb t "")) || dotThenMore t
  end.

Definition domainPart (s : string) : bool :=
  match s with
  | EmptyString => false
  | String _ t => dotThenMore t
  end.

Fixpoint atThenDomain (s : string) : bool :=
  match s with
  | EmptyString => false
  | String c t => (Ascii.eqb c "@" && domainPart t) || atThenDomain t
  end.

Definition emailMatch (s : string) : bool :=
  Js.allChars (fun c => negb (Js.isSpace c)) s &&
  match s with
  | EmptyString => false
  | String _ t => atThenDomain t
  end.

(** The setters of the [email] path ([trim], [lowercase]); Mongoose runs
    them on documents and on query filters alike. *)
Definition castEmail (s : string) : string := Js.toLowerCase (Js.trim s).
End EventRegistration.

(** ** The document store *)

Record Db := mkDb {
  events : gmap ObjectId Event.t;
  registrations : list EventRegistration.t;  (* in insertion order *)
  nextId : ObjectId
}.

(** What a store call can throw. *)
Inductive StoreError :=
| ValidationError (errors : list (string * string))   (* path, message *)
| DuplicateKey.                                       (* E11000 *)

Module Validate.
(** A [required] string path with [trim] and [maxlength]. *)
Definition requiredString (path : string) (lowercase : bool)
    (msgRequired : string) (maxlength : nat) (msgMax : string)
    (v : option string) : (string * string) + string :=
  match v with
  | None => inl (path, msgRequired)
  | Some s =>
      let s := Js.trim s in
      let s := if lowercase then Js.toLowerCase s else s in
      if String.eqb s "" then inl (path, msgRequired)
      else if (maxlength <? String.length s)%nat then inl (path, msgMax)
      else inr s
  end.

(** An optional string path with [trim] and [maxlength]. *)
Definition optionalString (path : string) (maxlength : nat)
    (msgMax : string) (v : option string)
    : (string * string) + option string :=
  match v with
  | None => inr None
  | Some s =>
      let s := Js.trim s in
      if (maxlength <? String.length s)%nat then inl (path, msgMax)
      else inr (Some s)
  end.

Definition firstName :=
  requiredString "firstName" false "First name is required"
    100 "First name cannot exceed 100 characters".
Definition lastName :=
  requiredString "lastName" false "Last name is required"
    100 "Last name cannot exceed 100 characters".
Definition email (v : option string) : (string * string) + string :=
  match requiredString "email" true "Email is required"
          255 "Email cannot exceed 255 characters" v with
  | inl e => inl e
  | inr s => if EventRegistration.emailMatch s then inr s
             else inl ("email", "Please enter a valid email")
  end.
Definition phone :=
  optionalString "phone" 20 "Phone number cannot exceed 20 characters".
Definition accessibilityNeeds :=
  optionalString "accessibilityNeeds" 500
    "Accessibility needs cannot exceed 500 characters".

Definition errorOf {A} (r : (string * string) + A) : list (string * string) :=
  match r with inl e => [e] | inr _ => [] end.
End Validate.

(** [pre('save')] of the registration schema: the ticket is
    [PV-<first three letters of the event slug, upper case>-<random part>],
    with [EVT] when the event is not found.  [rnd] stands for
    [Math.random().toString(36).substring(2, 8).toUpperCase()]. *)
Definition generateTicketId (eventDoc : option Event.t) (rnd : string) : string :=
  let eventPrefix :=
    match eventDoc with
    | Some e => Js.toUpperCase (Js.prefix 3 (Event.slug e))
    | None => "EVT"
    end in
  "PV-" ++ eventPrefix ++ "-" ++ rnd.

Definition ticketTaken (t : string) (db : Db) : bool :=
  existsb (fun r => String.eqb (EventRegistration.ticketId r) t)
          (registrations db).

(** [EventRegistration.create(doc)]: cast and validate, run the pre-save
    hook, insert; the unique index on [ticketId] rejects a duplicate. *)
Definition EventRegistration_create (d : EventRegistration.doc) (rnd : string)
    (db : Db) : Db * (StoreError + EventRegistration.t) :=
  let fn := Validate.firstName (EventRegistration.d_firstName d) in
  let ln := Validate.lastName (EventRegistration.d_lastName d) in
  let em := Validate.email (EventRegistration.d_email d) in
  let ph := Validate.phone (EventRegistration.d_phone d) in
  let ac := Validate.accessibilityNeeds (EventRegistration.d_accessibilityNeeds d) in
  match fn, ln, em, ph, ac with
  | inr fn, inr ln, inr em, inr ph, inr ac =>
      let ticket :=
        generateTicketId (events db !! EventRegistration.d_event d) rnd in
      if ticketTaken ticket db then (db, inl DuplicateKey)
      else
        let r := EventRegistration.mk (nextId db) (EventRegistration.d_event d)
                   fn ln em ph ac ticket
                   (default RegStatus.confirmed (EventRegistration.d_status d))
                   (default PaymentStatus.pending
                            (EventRegistration.d_paymentStatus d))
                   (EventRegistration.d_amount d) in
        (mkDb (events db) (registrations db ++ [r]) (S (nextId db)), inr r)
  | _, _, _, _, _ =>
      (db, inl (ValidationError
                  (Validate.errorOf fn ++ Validate.errorOf ln ++
                   Validate.errorOf em ++ Validate.errorOf ph ++
                   Validate.errorOf ac)))
  end.

(** [EventRegistration.findOne({ event, email })]; the filter value goes
    through the setters of the path, an [undefined] value matches nothing
    because every stored document has an email. *)
Definition EventRegistration_findOne (ev : ObjectId) (em : option string)
    (db : Db) : option EventRegistration.t :=
  match em with
  | None => None
  | Some s =>
      find (fun r => Nat.eqb (EventRegistration.event r) ev &&
                     String.eqb (EventRegistration.email r)
                                (EventRegistration.castEmail s))
           (registrations db)
  end.

Definition EventRegistration_findById (id : ObjectId) (db : Db)
    : option EventRegistration.t :=
  find (fun r => Nat.eqb (EventRegistration._id r) id) (registrations db).

(** [registration.save()] after [registration.status = ...]: writes the
    status of the stored document with the same [_id]. *)
Definition EventRegistration_save (r : EventRegistration.t) (db : Db) : Db :=
  mkDb (events db)
       (map (fun r' =>
               if Nat.eqb (EventRegistration._id r') (EventRegistration._id r)
               then EventRegistration.set_status (EventRegistration.status r) r'
               else r')
            (registrations db))
       (nextId db).

(** [Event.findByIdAndUpdate(id, { $inc: { currentAttendees: d } })]:
    no validator runs, a missing event is left missing. *)
Definition Event_incCurrentAttendees (id : ObjectId) (d : Z) (db : Db) : Db :=
  mkDb (alter (Event.inc_currentAttendees d) id (events db))
       (registrations db) (nextId db).

(** The body of [PUT /api/events/:id], restricted to plain values for the
    paths of [Event.t] that the registration engine and the listing read. *)
Record EventPatch := mkPatch {
  p_price : option Z;
  p_isFree : option bool;
  p_maxAttendees : option (option Z);     (* a number or [null] *)
  p_currentAttendees : option Z;
  p_featured : option bool;
  p_status : option string;
  p_registrationOpen : option bool
}.

(** The update validators ([runValidators: true]) of the patched paths. *)
Definition validatePatch (p : EventPatch) : list (string * string) :=
  let price :=
    match p_price p with
    | Some v => if v <? 0 then [("price", "Price cannot be negative")] else []
    | None => []
    end in
  let maxAttendees :=
    match p_maxAttendees p with
    | Some m => if Event.maxAttendees_valid m then []
                else [("maxAttendees", "Maximum attendees must be at least 1")]
    | None => []
    end in
  let status :=
    match p_status p with
    | Some s => match EventStatus.ofString s with
                | Some _ => []
                | None => [("status", "`" ++ s ++
                            "` is not a valid enum value for path `status`.")]
                end
    | None => []
    end in
  app price (app maxAttendees status).

Definition applyPatch (p : EventPatch) (e : Event.t) : Event.t :=
  Event.mk (Event._id e) (Event.title e) (Event.slug e)
    (Event.fullDescription e) (Event.date e)
    (default (Event.price e) (p_price p))
    (default (Event.isFree e) (p_isFree p))
    (default (Event.maxAttendees e) (p_maxAttendees p))
    (default (Event.currentAttendees e) (p_currentAttendees p))
    (default (Event.featured e) (p_featured p))
    (default (Event.status e) (p_status p ≫= EventStatus.ofString))
    (default (Event.registrationOpen e) (p_registrationOpen p)).

(** [Event.findByIdAndUpdate(id, body, { new: true, runValidators: true })] *)
Definition Event_findByIdAndUpdate (id : ObjectId) (p : EventPatch) (db : Db)
    : Db * (StoreError + option Event.t) :=
  match validatePatch p with
  | [] =>
      match events db !! id with
      | None => (db, inr None)
      | Some e =>
          let e' := applyPatch p e in
          (mkDb (<[id := e']> (events db)) (registrations db) (nextId db),
           inr (Some e'))
      end
  | errs => (db, inl (ValidationError errs))
  end.

(** The filter object built by [getEvents]. *)
Record EventFilter := mkFilter {
  f_status : option string;
  f_featured : option bool
}.

Definition matchesFilter (f : EventFilter) (e : Event.t) : bool :=
  match f_status f with
  | Some s => String.eqb (EventStatus.toString (Event.status e)) s
  | None => true
  end &&
  match f_featured f with
  | Some b => Bool.eqb (Event.featured e) b
  | None => true
  end.

(** [.sort({ featured: -1, date: 1 })]: featured events first, then by
    date string, ascending. *)
Definition sortKeyLe (a b : Event.t) : bool :=
  if Bool.eqb (Event.featured a) (Event.featured b)
  then String.leb (Event.date a) (Event.date b)
  else Event.featured a.

Definition allEvents (db : Db) : list Event.t :=
  (map_to_list (events db)).*2.

Definition matching (f : EventFilter) (db : Db) : list Event.t :=
  filter (fun e => Is_true (matchesFilter f e)) (allEvents db).

(** [Event.find(query).sort(...).skip(skip).limit(limit)
      .select('-fullDescription')] *)
Definition Event_find (f : EventFilter) (skip limit : nat) (db : Db)
    : list Event.t :=
  Event.without_fullDescription <$>
    take limit (drop skip
      (merge_sort (fun a b => Is_true (sortKeyLe a b)) (matching f db))).

(** [Event.countDocuments(query)] *)
Definition Event_countDocuments (f : EventFilter) (db : Db) : nat :=
  List.length (matching f db).

(** ** Handlers as trees of store calls *)

Inductive StoreOp : Type -> Type :=
| OpEventFindById (id : ObjectId) : StoreOp (option Event.t)
| OpEventInc (id : ObjectId) (d : Z) : StoreOp unit
| OpEventUpdate (id : ObjectId) (p : EventPatch)
    : StoreOp (StoreError + option Event.t)
| OpEventFind (f : EventFilter) (skip limit : nat) : StoreOp (list Event.t)
| OpEventCount (f : EventFilter) : StoreOp nat
| OpRegFindOne (ev : ObjectId) (em : option string)
    : StoreOp (option EventRegistration.t)
| OpRegFindById (id : ObjectId) : StoreOp (option EventRegistration.t)
| OpRegCreate (d : EventRegistration.doc) (rnd : string)
    : StoreOp (StoreError + EventRegistration.t)
| OpRegSave (r : EventRegistration.t) : StoreOp unit.

(** One store call, executed atomically. *)
Definition perform {A} (op : StoreOp A) (db : Db) : Db * A :=
  match op in StoreOp T return Db * T with
  | OpEventFindById id => (db, events db !! id)
  | OpEventInc id d => (Event_incCurrentAttendees id d db, tt)
  | OpEventUpdate id p => Event_findByIdAndUpdate id p db
  | OpEventFind f skip limit => (db, Event_find f skip limit db)
  | OpEventCount f => (db, Event_countDocuments f db)
  | OpRegFindOne ev em => (db, EventRegistration_findOne ev em db)
  | OpRegFindById id => (db, EventRegistration_findById id db)
  | OpRegCreate d rnd => EventRegistration_create d rnd db
  | OpRegSave r => (EventRegistration_save r db, tt)
  end.

Inductive Handler (R : Type) : Type :=
| Done (r : R)
| Await {A : Type} (op : StoreOp A) (k : A -> Handler R).

Arguments Done {R} r.
Arguments Await {R A} op k.

Notation "'await!' x ':=' op 'in' k" := (Await op (fun x => k))
  (at level 10, x name, op at level 100, k at level 200, only parsing).

(** Run a handler to completion, nothing else touching the store. *)
Fixpoint exec {R} (h : Handler R) (db : Db) : Db * R :=
  match h with
  | Done r => (db, r)
  | Await op k => let '(db', a) := perform op db in exec (k a) db'
  end.

(** Interleaved execution: a pool of running handlers, and a schedule that
    names which handler performs its next store call. *)
Definition stepThread {R} (i : nat) (s : Db * list (Handler R))
    : Db * list (Handler R) :=
  match s.2 !! i with
  | Some (Await op k) =>
      let '(db', a) := perform op s.1 in (db', <[i := k a]> s.2)
  | _ => s
  end.

Definition schedule {R} (sched : list nat) (s : Db * list (Handler R))
    : Db * list (Handler R) :=
  foldl (fun s i => stepThread i s) s sched.

Definition finished {R} (h : Handler R) : option R :=
  match h with
  | Done r => Some r
  | Await _ _ => None
  end.

(** ** [controllers/eventController.js] *)

Inductive Payload :=
| NoData
| RegistrationData (r : EventRegistration.t) (isWaitlisted : option bool)
| EventData (e : Event.t)
| EventsData (l : list Event.t) (page limit : positive) (total pages : nat).

(** [res.status(statusCode).json({ success, message, errors, data })] *)
Record Response := mkResponse {
  statusCode : nat;
  success : bool;
  message : option string;
  errors : list (string * string);
  data : Payload
}.

Definition failure (code : nat) (msg : string) : Response :=
  mkResponse code false (Some msg) [] NoData.

(** The [catch] block of [registerForEvent]. *)
Definition registerCatch (e : StoreError) : Response :=
  match e with
  | ValidationError errs =>
      mkResponse 400 false (Some "Validation failed") errs NoData
  | DuplicateKey => failure 500 "Server error while registering for event"
  end.

(** [req.body] of [POST /api/events/:id/register] *)
Record Attendee := mkAttendee {
  firstName : option string;
  lastName : option string;
  email : option string;
  phone : option string;
  accessibilityNeeds : option string
}.

Definition registerForEvent (id : ObjectId) (body : Attendee) (rnd : string)
    : Handler Response :=
  await! found := OpEventFindById id in
  match found with
  | None => Done (failure 404 "Event not found")
  | Some event =>
    if negb (EventStatus.eqb (Event.status event) EventStatus.published)
    then Done (failure 400 "Registration is not open for this event")
    else if negb (Event.registrationOpen event)
    then Done (failure 400 "Registration is closed for this event")
    else
      await! existingRegistration := OpRegFindOne id (email body) in
      match existingRegistration with
      | Some _ =>
          Done (failure 400 "You are already registered for this event")
      | None =>
        let amount := if Event.isFree event then 0 else Event.price event in
        if Event.maxAttendees_truthy event &&
           (default 0 (Event.maxAttendees event) <=? Event.currentAttendees event)
        then
          await! created :=
            OpRegCreate
              (EventRegistration.mkDoc id (firstName body) (lastName body)
                 (email body) (phone body) (accessibilityNeeds body)
                 (Some RegStatus.waitlisted) None amount) rnd in
          match created with
          | inl e => Done (registerCatch e)
          | inr registration =>
              Done (mkResponse 201 true
                      (Some "Event is full. You have been added to the waitlist.")
                      [] (RegistrationData registration (Some true)))
          end
        else
          await! created :=
            OpRegCreate
              (EventRegistration.mkDoc id (firstName body) (lastName body)
                 (email body) (phone body) (accessibilityNeeds body)
                 None
                 (Some (if Event.isFree event then PaymentStatus.paid
                        else PaymentStatus.pending))
                 amount) rnd in
          match created with
          | inl e => Done (registerCatch e)
          | inr registration =>
              await! _u := OpEventInc id 1 in
              Done (mkResponse 201 true (Some "Registration successful")
                      [] (RegistrationData registration None))
          end
      end
  end.

Definition cancelRegistration (id : ObjectId) : Handler Response :=
  await! found := OpRegFindById id in
  match found with
  | None => Done (failure 404 "Registration not found")
  | Some registration =>
      let registration :=
        EventRegistration.set_status RegStatus.cancelled registration in
      await! _u := OpRegSave registration in
      await! _v := OpEventInc (EventRegistration.event registration) (-1) in
      Done (mkResponse 200 true (Some "Registration cancelled successfully")
              [] NoData)
  end.

Definition updateEvent (id : ObjectId) (body : EventPatch)
    : Handler Response :=
  await! updated := OpEventUpdate id body in
  match updated with
  | inl (ValidationError errs) =>
      Done (mkResponse 400 false (Some "Validation failed") errs NoData)
  | inl DuplicateKey =>
      Done (failure 500 "Server error while updating event")
  | inr None => Done (failure 404 "Event not found")
  | inr (Some event) =>
      Done (mkResponse 200 true (Some "Event updated successfully") []
              (EventData event))
  end.

(** [req.query] of [GET /api/events]; [page] and [limit] are taken as
    parsed positive integers. *)
Record ListQuery := mkListQuery {
  q_page : option positive;
  q_limit : option positive;
  q_featured : option string;
  q_status : option string
}.

(** The filter object [query] that [getEvents] builds. *)
Definition getEventsFilter (q : ListQuery) : EventFilter :=
  let status := default "published" (q_status q) in
  mkFilter
    (if negb (String.eqb status "all") then Some status else None)
    (match q_featured q with
     | Some f => if String.eqb f "true" then Some true else None
     | None => None
     end).

Definition getEvents (q : ListQuery) : Handler Response :=
  let page := default 1%positive (q_page q) in
  let limit := default 20%positive (q_limit q) in
  let query := getEventsFilter q in
  await! found :=
    OpEventFind query ((Pos.to_nat page - 1) * Pos.to_nat limit)%nat
                (Pos.to_nat limit) in
  await! total := OpEventCount query in
  Done (mkResponse 200 true None []
          (EventsData found page limit total
             (Nat.div (total + Pos.to_nat limit - 1) (Pos.to_nat limit)))).

(** ** [routes/eventRoutes.js] *)

Module Route.
Inductive method := GET | POST | PUT | DELETE.

Inductive segment :=
| Lit (s : string)
| Param (name : string).

Inductive action :=
| getEventStats | getAllRegistrations | getAdminEvents | getEvents
| getEventById | registerForEvent | getEventRegistrations | createEvent
| updateEvent | deleteEvent | cancelRegistration.

Record t := mk {
  verb : method;
  path : list segment;
  protect : bool;        (* is the [protect] middleware in front? *)
  handler : action
}.

(** The routes in the order in which the router registers them. *)
Definition table : list t :=
  [ mk GET [Lit "stats"] true getEventStats;
    mk GET [Lit "registrations"] true getAllRegistrations;
    mk GET [Lit "admin"; Lit "all"] true getAdminEvents;
    mk GET [] false getEvents;
    mk GET [Param "idOrSlug"] false getEventById;
    mk POST [Param "id"; Lit "register"] false registerForEvent;
    mk GET [Param "id"; Lit "registrations"] true getEventRegistrations;
    mk POST [] true createEvent;
    mk PUT [Param "id"] true updateEvent;
    mk DELETE [Param "id"] true deleteEvent;
    mk POST [Lit "registrations"; Param "id"; Lit "cancel"] false
       cancelRegistration ].

Definition method_eqb (a b : method) : bool :=
  match a, b with
  | GET, GET | POST, POST | PUT, PUT | DELETE, DELETE => true
  | _, _ => false
  end.

Fixpoint pathMatches (pat : list segment) (url : list string) : bool :=
  match pat, url with
  | [], [] => true
  | Lit s :: pat', u :: url' => String.eqb s u && pathMatches pat' url'
  | Param _ :: pat', u :: url' =>
      negb (String.eqb u "") && pathMatches pat' url'
  | _, _ => false
  end.

(** The first registered route that matches handles the request. *)
Definition dispatch (m : method) (url : list string) : option t :=
  find (fun r => method_eqb (verb r) m && pathMatches (path r) url) table.
End Route.

(** ** Observations on a database state *)

(** The number of registrations of event [ev] whose status is confirmed. *)
Definition isConfirmedFor (ev : ObjectId) (r : EventRegistration.t) : bool :=
  Nat.eqb (EventRegistration.event r) ev &&
  RegStatus.eqb (EventRegistration.status r) RegStatus.confirmed.

Definition confirmedCount (ev : ObjectId) (db : Db) : Z :=
  Z.of_nat (List.length (List.filter (isConfirmedFor ev) (registrations db))).

Definition attendees (ev : ObjectId) (db : Db) : option Z :=
  Event.currentAttendees <$> events db !! ev.

(** The counter of event [ev] agrees with its confirmed registrations. *)
Definition counterConsistent (ev : ObjectId) (db : Db) : Prop :=
  attendees ev db = Some (confirmedCount ev db).

(** ** The engine as a transition system *)

(** The requests that read or write the two stores. *)
Inductive Request :=
| Register (id : ObjectId) (body : Attendee) (rnd : string)
| Cancel (id : ObjectId)
| Update (id : ObjectId) (body : EventPatch)
| Listing (q : ListQuery).

Definition handle (rq : Request) : Handler Response :=
  match rq with
  | Register id body rnd => registerForEvent id body rnd
  | Cancel id => cancelRegistration id
  | Update id body => updateEvent id body
  | Listing q => getEvents q
  end.

(** The state after the requests have been served one after the other. *)
Definition serveAll (reqs : list Request) (db : Db) : Db :=
  foldl (fun db rq => (exec (handle rq) db).1) db reqs.

(** A registration request, and requests served one after the other. *)
Record RegisterRequest := mkRequest {
  rq_event : ObjectId;
  rq_body : Attendee;
  rq_rnd : string
}.

Definition serve (rq : RegisterRequest) : Handler Response :=
  registerForEvent (rq_event rq) (rq_body rq) (rq_rnd rq).

Definition serveSerially (reqs : list RegisterRequest) (db : Db) : Db :=
  foldl (fun db rq => (exec (serve rq) db).1) db reqs.

(** The document that [registerForEvent] hands to
    [EventRegistration.create] passes validation and gets a fresh ticket. *)
Definition creatable (id : ObjectId) (body : Attendee) (rnd : string)
    (db : Db) : bool :=
  match Validate.firstName (firstName body),
        Validate.lastName (lastName body),
        Validate.email (email body),
        Validate.phone (phone body),
        Validate.accessibilityNeeds (accessibilityNeeds body) with
  | inr _, inr _, inr _, inr _, inr _ =>
      negb (ticketTaken (generateTicketId (events db !! id) rnd) db)
  | _, _, _, _, _ => false
  end.

(** The store after the insertion of a new registration. *)
Definition inserted (r : EventRegistration.t) (db : Db) : Db :=
  mkDb (events db) (registrations db ++ [r]) (S (nextId db)).

(** The capacity test of [registerForEvent]:
    [event.maxAttendees && event.currentAttendees >= event.maxAttendees]. *)
Definition capacityReached (event : Event.t) : bool :=
  Event.maxAttendees_truthy event &&
  (default 0 (Event.maxAttendees event) <=? Event.currentAttendees event).

Definition amountDue (event : Event.t) : Z :=
  if Event.isFree event then 0 else Event.price event.

Definition confirmedReply (r : EventRegistration.t) : Response :=
  mkResponse 201 true (Some "Registration successful") []
    (RegistrationData r None).

Definition waitlistedReply (r : EventRegistration.t) : Response :=
  mkResponse 201 true
    (Some "Event is full. You have been added to the waitlist.") []
    (RegistrationData r (Some true)).

Definition alreadyRegistered : Response :=
  failure 400 "You are already registered for this event".

(** The three ways in which [registerForEvent] can end. *)
Inductive RegisterOutcome (id : ObjectId) (body : Attendee) (db : Db)
    : Db * Response → Prop :=
| Rejected resp :
    success resp = false →
    RegisterOutcome id body db (db, resp)
| Confirmed event r :
    events db !! id = Some event →
    capacityReached event = false →
    EventRegistration.event r = id →
    EventRegistration._id r = nextId db →
    EventRegistration.status r = RegStatus.confirmed →
    EventRegistration.paymentStatus r =
      (if Event.isFree event then PaymentStatus.paid
       else PaymentStatus.pending) →
    EventRegistration.amount r = amountDue event →
    Validate.email (email body) = inr (EventRegistration.email r) →
    RegisterOutcome id body db
      (Event_incCurrentAttendees id 1 (inserted r db), confirmedReply r)
| Waitlisted event r :
    events db !! id = Some event →
    capacityReached event = true →
    EventRegistration.event r = id →
    EventRegistration._id r = nextId db →
    EventRegistration.status r = RegStatus.waitlisted →
    EventRegistration.paymentStatus r = PaymentStatus.pending →
    EventRegistration.amount r = amountDue event →
    Validate.email (email body) = inr (EventRegistration.email r) →
    RegisterOutcome id body db (inserted r db, waitlistedReply r).

(** The seats of event [id] are not oversold: its capacity is [N], and the
    confirmed registrations do not outnumber the counter, nor the counter
    the capacity. *)
Definition withinCapacity (id : ObjectId) (N : Z) (db : Db) : Prop :=
  ∃ e, events db !! id = Some e ∧ Event.maxAttendees e = Some N ∧
       confirmedCount id db <= Event.currentAttendees e ∧
       Event.currentAttendees e <= N.

(** Every stored event passes the [min] validator of [maxAttendees]. *)
Definition schemaValid (db : Db) : Prop :=
  ∀ id e, events db !! id = Some e →
          Event.maxAttendees_valid (Event.maxAttendees e) = true.

(** Registration ids are pairwise distinct and below the id counter. *)
Definition idsFresh (db : Db) : Prop :=
  NoDup (map EventRegistration._id (registrations db)) ∧
  Forall (λ r, (EventRegistration._id r < nextId db)%nat) (registrations db).

(** What the query string of [GET /api/events] selects. *)
Definition statusSelected (q : ListQuery) (e : Event.t) : Prop :=
  default "published" (q_status q) = "all" ∨
  EventStatus.toString (Event.status e) = default "published" (q_status q).

Definition featuredSelected (q : ListQuery) (e : Event.t) : Prop :=
  q_featured q = Some "true" → Event.featured e = true.

Definition stored (db : Db) (e : Event.t) : Prop :=
  ∃ id, events db !! id = Some e.

(** ** Sample data *)

Module Sample.
Definition walk : Event.t :=
  Event.mk 1 "Pride Walk 2024!!" "pride-walk-2024" (Some "All welcome")
    "2024-06-01" 0 true (Some 1) 0 false EventStatus.published true.

Definition gala : Event.t :=
  Event.mk 2 "Gala" "gala" None "2024-07-01" 500 false None 0 true
    EventStatus.draft true.

Definition parade : Event.t :=
  Event.mk 3 "Parade" "parade" None "2024-05-01" 0 true (Some 50) 0 false
    EventStatus.cancelled false.

Definition db0 : Db :=
  mkDb (<[1%nat := walk]> (<[2%nat := gala]> (<[3%nat := parade]> ∅))) [] 100.

Definition alice : Attendee :=
  mkAttendee (Some "Alice") (Some "Archer") (Some "alice@example.com")
    (Some "555-0100") None.

Definition bob : Attendee :=
  mkAttendee (Some "Bob") (Some "Baker") (Some "bob@example.com") None None.

Definition carol : Attendee :=
  mkAttendee (Some "Carol") (Some "Cole") (Some " Carol@Example.com ") None
    (Some "step-free access").

(** Alice registers (confirmed, id 100), then Bob (waitlisted, id 101). *)
Definition afterAlice : Db := (exec (registerForEvent 1 alice "A1B2C3") db0).1.
Definition afterBob : Db := (exec (registerForEvent 1 bob "D4E5F6") afterAlice).1.
End Sample.

Module Scenario.
Import Sample.

(** Alice cancels her confirmed registration. *)
Definition aliceCancelled : Db := (exec (cancelRegistration 100) afterAlice).1.

(** Bob cancels his waitlisted registration while Alice stays confirmed. *)
Definition bobCancelled : Db := (exec (cancelRegistration 101) afterBob).1.

(** Both register, then Alice cancels and Bob cancels. *)
Definition bothCancelled : Db :=
  serveAll [Register 1 alice "A1B2C3"; Register 1 bob "D4E5F6";
            Cancel 100; Cancel 101] db0.

(** The walk is full: Alice holds its only seat. *)
Definition walkFull : Event.t := Event.inc_currentAttendees 1 walk.

(** Two requests for the last seat, interleaved at every store call. *)
Definition race : list (Handler Response) :=
  [registerForEvent 1 alice "A1B2C3"; registerForEvent 1 bob "D4E5F6"].

Definition alternate : list nat := [0; 1; 0; 1; 0; 1; 0; 1]%nat.
End Scenario.

(** ** The rest of [models/Event.js]: the slug *)

Module Slug.
(** the class [[a-z0-9]] *)
Definition isSlugChar (c : ascii) : bool :=
  let n := N_of_ascii c in
  ((N.leb 97 n && N.leb n 122) || (N.leb 48 n && N.leb n 57))%bool.

Definition isDash (c : ascii) : bool := Ascii.eqb c "-".

(** [.replace(/[^a-z0-9]+/g, '-')]: every maximal run of other characters
    becomes one dash; [inRun] says that the run has already been replaced. *)
Fixpoint collapse (inRun : bool) (s : string) : string :=
  match s with
  | EmptyString => EmptyString
  | String c t =>
      if isSlugChar c then String c (collapse false t)
      else if inRun then collapse true t
      else String "-" (collapse true t)
  end.

(** [.replace(/(^-|-$)/g, '')]: one dash at the start and one dash at the
    end are removed. *)
Definition stripLeading (s : string) : string :=
  match s with
  | String c t => if isDash c then t else s
  | EmptyString => EmptyString
  end.

Fixpoint stripTrailing (s : string) : string :=
  match s with
  | EmptyString => EmptyString
  | String c t =>
      if isDash c && String.eqb t "" then EmptyString
      else String c (stripTrailing t)
  end.

(** The [pre('save')] hook of the event schema. *)
Definition slugify (title : string) : string :=
  stripTrailing (stripLeading (collapse false (Js.toLowerCase title))).

(** The shape of a slug: letters and digits in groups, one dash between
    two groups. *)
Fixpoint wellFormedFrom (afterDash : bool) (s : string) : bool :=
  match s with
  | EmptyString => negb afterDash
  | String c t =>
      if isSlugChar c then wellFormedFrom false t
      else isDash c && negb afterDash && wellFormedFrom true t
  end.

Definition wellFormed (s : string) : bool :=
  match s with
  | EmptyString => true
  | String c _ => isSlugChar c && wellFormedFrom false s
  end.
End Slug.

(** ** The rest of [controllers/eventController.js] *)

(** A reply whose [data] is not one of the payloads above. *)
Record Reply (A : Type) := mkReply {
  r_statusCode : nat;
  r_success : bool;
  r_message : option string;
  r_data : option A
}.

Arguments mkReply {A} _ _ _ _.
Arguments r_statusCode {A} _.
Arguments r_success {A} _.
Arguments r_message {A} _.
Arguments r_data {A} _.

(** [req.body] of [POST /api/events], with plain values for the paths of
    [Event.t] and for the other required paths of the schema. *)
Record EventDraft := mkDraft {
  n_title : option string;
  n_slug : option string;
  n_description : option string;
  n_fullDescription : option string;
  n_date : option string;
  n_time : option string;
  n_location : option string;
  n_organizerName : option string;
  n_price : option Z;
  n_isFree : option bool;
  n_currency : option string;
  n_maxAttendees : option (option Z);
  n_currentAttendees : option Z;
  n_featured : option bool;
  n_status : option string;
  n_registrationOpen : option bool
}.

Module ValidateEvent.
(** A [required] string path with [trim] and no length bound. *)
Definition requiredTrimmed (path msgRequired : string) (v : option string)
    : (string * string) + string :=
  match v with
  | None => inl (path, msgRequired)
  | Some s =>
      let s := Js.trim s in
      if String.eqb s "" then inl (path, msgRequired) else inr s
  end.

Definition title :=
  Validate.requiredString "title" false "Event title is required"
    200 "Title cannot exceed 200 characters".
Definition description :=
  Validate.requiredString "description" false "Event description is required"
    2000 "Description cannot exceed 2000 characters".
Definition date := requiredTrimmed "date" "Event date is required".
Definition time := requiredTrimmed "time" "Event time is required".
Definition location :=
  Validate.requiredString "location" false "Event location is required"
    500 "Location cannot exceed 500 characters".
Definition organizerName :=
  requiredTrimmed "organizer.name" "Organizer name is required".

Definition price (v : option Z) : list (string * string) :=
  match v with
  | Some p => if p <? 0 then [("price", "Price cannot be negative")] else []
  | None => []
  end.

Definition maxAttendees (v : option (option Z)) : list (string * string) :=
  match v with
  | Some m => if Event.maxAttendees_valid m then []
              else [("maxAttendees", "Maximum attendees must be at least 1")]
  | None => []
  end.

Definition enumError (path value : string) : string * string :=
  (path, "`" ++ value ++ "` is not a valid enum value for path `" ++ path
         ++ "`.").

Definition currency (v : option string) : list (string * string) :=
  match v with
  | Some c => if String.eqb c "INR" || String.eqb c "USD" || String.eqb c "EUR"
              then [] else [enumError "currency" c]
  | None => []
  end.

Definition status (v : option string) : list (string * string) :=
  match v with
  | Some s => match EventStatus.ofString s with
              | Some _ => []
              | None => [enumError "status" s]
              end
  | None => []
  end.

(** All the validation errors of a draft, in the order of the schema. *)
Definition errorsOf (d : EventDraft) : list (string * string) :=
  app (Validate.errorOf (title (n_title d)))
 (app (Validate.errorOf (description (n_description d)))
 (app (Validate.errorOf (date (n_date d)))
 (app (Validate.errorOf (time (n_time d)))
 (app (Validate.errorOf (location (n_location d)))
 (app (Validate.errorOf (organizerName (n_organizerName d)))
 (app (price (n_price d))
 (app (currency (n_currency d))
 (app (maxAttendees (n_maxAttendees d))
      (status (n_status d)))))))))).
End ValidateEvent.

Definition slugTaken (s : string) (db : Db) : bool :=
  existsb (fun e => String.eqb (Event.slug e) s) (allEvents db).

(** [Event.create(req.body)]: cast and validate, run the pre-save hook that
    derives the slug from the title, insert; the unique index on [slug]
    rejects a duplicate. *)
Definition Event_create (d : EventDraft) (db : Db)
    : Db * (StoreError + Event.t) :=
  match ValidateEvent.errorsOf d, ValidateEvent.title (n_title d),
        ValidateEvent.date (n_date d) with
  | [], inr title, inr date =>
      let slug := Slug.slugify title in
      if slugTaken slug db then (db, inl DuplicateKey)
      else
        let e := Event.mk (nextId db) title slug
                   (Js.trim <$> n_fullDescription d) date
                   (default 0 (n_price d))
                   (default true (n_isFree d))
                   (default None (n_maxAttendees d))
                   (default 0 (n_currentAttendees d))
                   (default false (n_featured d))
                   (default EventStatus.draft
                            (n_status d ≫= EventStatus.ofString))
                   (default true (n_registrationOpen d)) in
        (mkDb (<[nextId db := e]> (events db)) (registrations db)
              (S (nextId db)), inr e)
  | errs, _, _ => (db, inl (ValidationError errs))
  end.

Definition createEvent (body : EventDraft) (db : Db) : Db * Response :=
  match Event_create body db with
  | (db', inr event) =>
      (db', mkResponse 201 true (Some "Event created successfully") []
              (EventData event))
  | (db', inl (ValidationError errs)) =>
      (db', mkResponse 400 false (Some "Validation failed") errs NoData)
  | (db', inl DuplicateKey) =>
      (db', failure 400 "An event with this title already exists")
  end.

(** [Event.findByIdAndDelete(id)] *)
Definition Event_findByIdAndDelete (id : ObjectId) (db : Db)
    : Db * option Event.t :=
  (mkDb (delete id (events db)) (registrations db) (nextId db),
   events db !! id).

(** [EventRegistration.deleteMany({ event: id })] *)
Definition EventRegistration_deleteMany (id : ObjectId) (db : Db) : Db :=
  mkDb (events db)
       (List.filter (fun r => negb (Nat.eqb (EventRegistration.event r) id))
                    (registrations db))
       (nextId db).

Definition deleteEvent (id : ObjectId) (db : Db) : Db * Reply ObjectId :=
  match Event_findByIdAndDelete id db with
  | (db', None) => (db', mkReply 404 false (Some "Event not found") None)
  | (db', Some _) =>
      (EventRegistration_deleteMany id db',
       mkReply 200 true (Some "Event deleted successfully") (Some id))
  end.

(** The string form of an ObjectId is 24 hexadecimal digits; the id is the
    number they denote. *)
Definition hexDigit (c : ascii) : option nat :=
  let n := N_of_ascii c in
  if (N.leb 48 n && N.leb n 57)%bool then Some (N.to_nat (n - 48))
  else if (N.leb 97 n && N.leb n 102)%bool then Some (N.to_nat (n - 87))
  else if (N.leb 65 n && N.leb n 70)%bool then Some (N.to_nat (n - 55))
  else None.

Fixpoint hexValue (acc : nat) (s : string) : nat :=
  match s with
  | EmptyString => acc
  | String c t => hexValue (16 * acc + default 0%nat (hexDigit c)) t
  end.

(** [idOrSlug.match(/^[0-9a-fA-F]{24}$/)] *)
Definition isObjectIdString (s : string) : bool :=
  Nat.eqb (String.length s) 24 &&
  Js.allChars (fun c => bool_decide (is_Some (hexDigit c))) s.

Definition objectIdOfString (s : string) : ObjectId := hexValue 0 s.

(** [Event.findOne({ slug })]; the filter value goes through the
    [lowercase] setter of the path. *)
Definition Event_findOneBySlug (s : string) (db : Db) : option Event.t :=
  List.find (fun e => String.eqb (Event.slug e) (Js.toLowerCase s))
            (allEvents db).

Definition getEventById (idOrSlug : string) (db : Db) : Response :=
  let event :=
    if isObjectIdString idOrSlug
    then events db !! objectIdOfString idOrSlug
    else Event_findOneBySlug idOrSlug db in
  match event with
  | None => failure 404 "Event not found"
  | Some event => mkResponse 200 true None [] (EventData event)
  end.

Definition regStatusToString (s : RegStatus.t) : string :=
  match s with
  | RegStatus.confirmed => "confirmed"
  | RegStatus.cancelled => "cancelled"
  | RegStatus.waitlisted => "waitlisted"
  end.

(** The filter objects built by the two registration listings. *)
Record RegFilter := mkRegFilter {
  rf_event : option ObjectId;
  rf_status : option string
}.

Definition matchesReg (f : RegFilter) (r : EventRegistration.t) : bool :=
  match rf_event f with
  | Some ev => Nat.eqb (EventRegistration.event r) ev
  | None => true
  end &&
  match rf_status f with
  | Some s => String.eqb (regStatusToString (EventRegistration.status r)) s
  | None => true
  end.

Definition matchingRegs (f : RegFilter) (db : Db) : list EventRegistration.t :=
  List.filter (matchesReg f) (registrations db).

(** [EventRegistration.find(query).sort({ createdAt: -1 }).skip(..).limit(..)]:
    the registrations are stored in the order of their creation, the sort
    puts the newest first. *)
Definition EventRegistration_find (f : RegFilter) (skip limit : nat) (db : Db)
    : list EventRegistration.t :=
  take limit (drop skip (rev (matchingRegs f db))).

Definition EventRegistration_countDocuments (f : RegFilter) (db : Db) : nat :=
  List.length (matchingRegs f db).

(** [{ data, pagination: { page, limit, total, pages } }] *)
Record Page (A : Type) := mkPage {
  pg_items : list A;
  pg_page : positive;
  pg_limit : positive;
  pg_total : nat;
  pg_pages : nat
}.

Arguments mkPage {A} _ _ _ _ _.
Arguments pg_items {A} _.
Arguments pg_page {A} _.
Arguments pg_limit {A} _.
Arguments pg_total {A} _.
Arguments pg_pages {A} _.

(** [status && status !== 'all'] *)
Definition statusFilter (status : option string) : option string :=
  match status with
  | Some s => if negb (String.eqb s "") && negb (String.eqb s "all")
              then Some s else None
  | None => None
  end.

(** [Math.ceil(total / limit)] *)
Definition pageCount (total : nat) (limit : positive) : nat :=
  Nat.div (total + Pos.to_nat limit - 1) (Pos.to_nat limit).

Definition skipOf (page limit : positive) : nat :=
  ((Pos.to_nat page - 1) * Pos.to_nat limit)%nat.

Definition getEventRegistrations (id : ObjectId)
    (page limit : option positive) (status : option string) (db : Db)
    : Reply (Page EventRegistration.t) :=
  let page := default 1%positive page in
  let limit := default 20%positive limit in
  let query := mkRegFilter (Some id) (statusFilter status) in
  let found :=
    EventRegistration_find query (skipOf page limit) (Pos.to_nat limit) db in
  let total := EventRegistration_countDocuments query db in
  mkReply 200 true None
    (Some (mkPage found page limit total (pageCount total limit))).

(** [.populate('event', 'title date slug')] *)
Record EventSummary := mkSummary {
  s_id : ObjectId;
  s_title : string;
  s_date : string;
  s_slug : string
}.

Definition populateEvent (db : Db) (r : EventRegistration.t)
    : EventRegistration.t * option EventSummary :=
  (r, (fun e => mkSummary (Event._id e) (Event.title e) (Event.date e)
                  (Event.slug e))
        <$> events db !! EventRegistration.event r).

Definition getAllRegistrations (page limit : option positive)
    (status : option string) (eventId : option ObjectId) (db : Db)
    : Reply (Page (EventRegistration.t * option EventSummary)) :=
  let page := default 1%positive page in
  let limit := default 20%positive limit in
  let query := mkRegFilter eventId (statusFilter status) in
  let found :=
    populateEvent db <$>
      EventRegistration_find query (skipOf page limit) (Pos.to_nat limit) db in
  let total := EventRegistration_countDocuments query db in
  mkReply 200 true None
    (Some (mkPage found page limit total (pageCount total limit))).

(** [getEventStats] *)
Definition countStatus (s : EventStatus.t) (db : Db) : nat :=
  List.length (List.filter (fun e => EventStatus.eqb (Event.status e) s)
                           (allEvents db)).

(** [Event.aggregate([{ $group: { _id: '$status', count: { $sum: 1 } } }])]:
    one group for each status that some event has. *)
Definition Event_aggregateByStatus (db : Db) : list (string * nat) :=
  List.filter (fun g => negb (Nat.eqb g.2 0))
    (map (fun s => (EventStatus.toString s, countStatus s db))
         [EventStatus.draft; EventStatus.published; EventStatus.cancelled;
          EventStatus.completed]).

Record Stats := mkStats {
  st_total : nat;
  st_byStatus : gmap string nat;
  st_totalRegistrations : nat;
  st_totalAttendees : nat
}.

Definition getEventStats (db : Db) : Reply Stats :=
  let stats := Event_aggregateByStatus db in
  let totalEvents := List.length (allEvents db) in
  let totalRegistrations := List.length (registrations db) in
  let totalAttendees :=
    EventRegistration_countDocuments (mkRegFilter None (Some "confirmed")) db in
  let statusCounts :=
    foldl (fun acc stat => <[stat.1 := stat.2]> acc) ∅ stats in
  mkReply 200 true None
    (Some (mkStats totalEvents statusCounts totalRegistrations totalAttendees)).

(** [formatValidationErrors]: the object keyed by the path of each error; a
    later error replaces an earlier one with the same path. *)
Definition formatValidationErrors (errors : list (string * string))
    : gmap string string :=
  foldl (fun formattedErrors error => <[error.1 := error.2]> formattedErrors)
        ∅ errors.

(** ** All the requests that write *)

Inductive WriteRequest :=
| Engine (rq : Request)
| CreateEvent (body : EventDraft)
| DeleteEvent (id : ObjectId).

Definition apply (rq : WriteRequest) (db : Db) : Db :=
  match rq with
  | Engine rq => (exec (handle rq) db).1
  | CreateEvent body => (createEvent body db).1
  | DeleteEvent id => (deleteEvent id db).1
  end.

Definition run (reqs : list WriteRequest) (db : Db) : Db :=
  foldl (fun db rq => apply rq db) db reqs.

Definition emptyDb : Db := mkDb ∅ [] 0.

(** ** Invariants of the two stores *)

(** Every event is stored under its own id, below the id counter. *)
Definition eventIdsFresh (db : Db) : Prop :=
  ∀ id e, events db !! id = Some e →
          Event._id e = id ∧ (id < nextId db)%nat.

(** No two events share a slug (the unique index). *)
Definition slugsUnique (db : Db) : Prop :=
  ∀ i j e1 e2, events db !! i = Some e1 → events db !! j = Some e2 →
               Event.slug e1 = Event.slug e2 → i = j.

(** No two registrations share a ticket (the unique index). *)
Definition ticketsUnique (db : Db) : Prop :=
  NoDup (map EventRegistration.ticketId (registrations db)).

(** Every registration refers to a stored event. *)
Definition noOrphans (db : Db) : Prop :=
  Forall (fun r => is_Some (events db !! EventRegistration.event r))
         (registrations db).

Module Catalogue.
Definition picnic : EventDraft :=
  mkDraft (Some "  Summer Picnic & BBQ!  ") (Some "my-own-slug")
    (Some "Food in the park") None (Some "2024-08-10") (Some "12:00")
    (Some "City Park") (Some "Sam") None None None (Some (Some 40)) None
    None (Some "published") None.

Definition picnicAgain : EventDraft :=
  mkDraft (Some "summer picnic BBQ") None (Some "Second edition") None
    (Some "2025-08-10") (Some "12:00") (Some "City Park") (Some "Sam")
    None None None None None None None None.

Definition untitled : EventDraft :=
  mkDraft None None (Some "No title") None (Some "2024-08-10") (Some "12:00")
    (Some "City Park") (Some "Sam") (Some (-5)) None (Some "GBP")
    (Some (Some 0)) None None (Some "open") None.

(** The sample store after the parade has been marked as featured. *)
Definition paradeFeatured : Event.t :=
  applyPatch (mkPatch None None None None (Some true) None None) Sample.parade.

Definition twoFeatured : Db :=
  (exec (updateEvent 3 (mkPatch None None None None (Some true) None None))
        Sample.db0).1.

(** The picnic is created and Alice registers for it. *)
Definition opening : list WriteRequest :=
  [CreateEvent picnic; Engine (Register 0 Sample.alice "A1B2C3")].

Definition aliceAtPicnic : EventRegistration.t :=
  EventRegistration.mk 1 0 "Alice" "Archer" "alice@example.com"
    (Some "555-0100") None "PV-SUM-A1B2C3" RegStatus.confirmed
    PaymentStatus.paid 0.

Definition picnicWithAlice : Event.t :=
  Event.mk 0 "Summer Picnic & BBQ!" "summer-picnic-bbq" None "2024-08-10" 0
    true (Some 40) 1 false EventStatus.published true.

(** A title that is, as a slug, 24 hexadecimal digits. *)
Definition hexTitle : EventDraft :=
  mkDraft (Some "00000000000000000000002A") None (Some "Looks like an id")
    None (Some "2024-09-01") (Some "09:00") (Some "Library") (Some "Sam")
    None None None None None None None None.
End Catalogue.

(** The output of the first [replace] of the slug hook: as a slug, except
    that it may start and end with a dash. *)
Fixpoint looseFrom (afterDash : bool) (s : string) : bool :=
  match s with
  | EmptyString => true
  | String c t =>
      if Slug.isSlugChar c then looseFrom false t
      else Slug.isDash c && negb afterDash && looseFrom true t
  end.

(** The invariants together. *)
Definition consistent (db : Db) : Prop :=
  eventIdsFresh db ∧ slugsUnique db ∧ schemaValid db ∧ idsFresh db ∧
  ticketsUnique db ∧ noOrphans db.

(** The events listed in a reply of [getEvents], the items of a page. *)
Definition listedEvents (resp : Response) : list Event.t :=
  match data resp with
  | EventsData l _ _ _ _ => l
  | _ => []
  end.

Definition itemsOf {A} (r : Reply (Page A)) : list A :=
  match r_data r with
  | Some p => pg_items p
  | None => []
  end.

(** The order in which [getEvents] lists the selected events. *)
Definition sortedEvents (f : EventFilter) (db : Db) : list Event.t :=
  merge_sort (fun a b => Is_true (sortKeyLe a b)) (matching f db).

(** The page numbers [1 .. n]. *)
Definition pageNumbers (n : nat) : list positive :=
  map (fun k => Pos.of_nat (S k)) (seq 0 n).

(** [a] may be listed before [b]: a featured event is never behind one that
    is not featured. *)
Definition featuredFirst (a b : Event.t) : Prop :=
  Event.featured b = true → Event.featured a = true.

(** The statuses of the events, each counted once. *)
Definition allStatuses : list EventStatus.t :=
  [EventStatus.draft; EventStatus.published; EventStatus.cancelled;
   EventStatus.completed].

(** Leading white space removed, on the list of characters. *)
Fixpoint dropSpaces (l : list ascii) : list ascii :=
  match l with
  | [] => []
  | c :: t => if Js.isSpace c then dropSpaces t else l
  end.

(** No white space character occurs in the string. *)
Definition noSpace (s : string) : bool :=
  Js.allChars (fun c => negb (Js.isSpace c)) s.

(** No leading white space. *)
Definition headOk (l : list ascii) : Prop :=
  match l with
  | [] => True
  | c :: _ => Js.isSpace c = false
  end.

(** * Properties *)

(** ** What [EventRegistration.create] does *)

Arguments EventRegistration_findOne : simpl never.
Arguments EventRegistration_findById : simpl never.
Arguments EventRegistration_create : simpl never.
Arguments EventRegistration_save : simpl never.
Arguments Event_incCurrentAttendees : simpl never.
Arguments Event_findByIdAndUpdate : simpl never.

Lemma create_cases d rnd db :
  (∃ e, EventRegistration_create d rnd db = (db, inl e)) ∨
  (∃ r, EventRegistration_create d rnd db = (inserted r db, inr r) ∧
        EventRegistration.event r = EventRegistration.d_event d ∧
        EventRegistration._id r = nextId db ∧
        EventRegistration.status r =
          default RegStatus.confirmed (EventRegistration.d_status d) ∧
        EventRegistration.paymentStatus r =
          default PaymentStatus.pending (EventRegistration.d_paymentStatus d) ∧
        EventRegistration.amount r = EventRegistration.d_amount d ∧
        Validate.email (EventRegistration.d_email d) =
          inr (EventRegistration.email r)).
Proof.
  unfold EventRegistration_create.
  destruct (Validate.firstName _) as [e1|fn]; [left; eauto|].
  destruct (Validate.lastName _) as [e2|ln]; [left; eauto|].
  destruct (Validate.email _) as [e3|em]; [left; eauto|].
  destruct (Validate.phone _) as [e4|ph]; [left; eauto|].
  destruct (Validate.accessibilityNeeds _) as [e5|ac]; [left; eauto|].
  destruct (ticketTaken _ db); [left; eauto|].
  right. eexists. split; [reflexivity|]. simpl. auto 10.
Qed.

Lemma create_creatable id body rnd db st ps am :
  creatable id body rnd db = true →
  ∃ r, EventRegistration_create
         (EventRegistration.mkDoc id (firstName body) (lastName body)
            (email body) (phone body) (accessibilityNeeds body) st ps am)
         rnd db = (inserted r db, inr r) ∧
       EventRegistration.event r = id ∧
       EventRegistration.status r = default RegStatus.confirmed st ∧
       EventRegistration.paymentStatus r = default PaymentStatus.pending ps ∧
       EventRegistration.amount r = am.
Proof.
  unfold creatable, EventRegistration_create. simpl.
  destruct (Validate.firstName _) as [e1|fn]; [discriminate|].
  destruct (Validate.lastName _) as [e2|ln]; [discriminate|].
  destruct (Validate.email _) as [e3|em]; [discriminate|].
  destruct (Validate.phone _) as [e4|ph]; [discriminate|].
  destruct (Validate.accessibilityNeeds _) as [e5|ac]; [discriminate|].
  destruct (ticketTaken _ db); [discriminate|].
  intros _. eexists. split; [reflexivity|]. simpl. auto.
Qed.

(** Case analysis on the [EventRegistration.create] call in the goal:
    either it throws [e], or it inserts the registration [r]. *)
Ltac case_create :=
  match goal with
  | |- context [EventRegistration_create ?d ?rnd ?db] =>
      let He := fresh "He" in
      let Hr := fresh "Hr" in
      destruct (create_cases d rnd db)
        as [[e He]|(r & Hr & ? & ? & ? & ? & ? & ?)];
      [rewrite He|rewrite Hr]
  end.

Lemma register_outcome id body rnd db :
  RegisterOutcome id body db (exec (registerForEvent id body rnd) db).
Proof.
  unfold registerForEvent. simpl.
  destruct (events db !! id) as [event|] eqn:Hev; simpl;
    [|by apply Rejected].
  destruct (negb (EventStatus.eqb _ _)); simpl; [by apply Rejected|].
  destruct (negb (Event.registrationOpen event)); simpl; [by apply Rejected|].
  destruct (EventRegistration_findOne id (email body) db); simpl;
    [by apply Rejected|].
  fold (capacityReached event). fold (amountDue event).
  destruct (capacityReached event) eqn:Hcap; simpl.
  - case_create; simpl.
    + apply Rejected. by destruct e.
    + eapply Waitlisted; eauto.
  - case_create; simpl.
    + apply Rejected. by destruct e.
    + eapply Confirmed; eauto.
Qed.

Lemma attendees_inc_eq id d db event :
  events db !! id = Some event →
  attendees id (Event_incCurrentAttendees id d db) =
    Some (Event.currentAttendees event + d).
Proof.
  intros H. unfold attendees, Event_incCurrentAttendees. simpl.
  rewrite lookup_alter_eq, H. reflexivity.
Qed.

Lemma attendees_inc_ne id id' d db :
  id ≠ id' →
  attendees id' (Event_incCurrentAttendees id d db) = attendees id' db.
Proof.
  intros H. unfold attendees, Event_incCurrentAttendees. simpl.
  by rewrite lookup_alter_ne.
Qed.

Lemma capacityReached_false event :
  Event.maxAttendees_valid (Event.maxAttendees event) = true →
  capacityReached event = false ↔
  (Event.maxAttendees event = None ∨
   ∃ m, Event.maxAttendees event = Some m ∧ Event.currentAttendees event < m).
Proof.
  unfold capacityReached, Event.maxAttendees_truthy, Event.maxAttendees_valid.
  destruct (Event.maxAttendees event) as [m|]; simpl.
  - intros Hm. apply Z.leb_le in Hm.
    replace (m =? 0) with false by (symmetry; apply Z.eqb_neq; lia). simpl.
    rewrite Z.leb_gt. split.
    + intros. right. eauto.
    + intros [|(m' & [= <-] & ?)]; [discriminate|lia].
  - intros _. split; auto.
Qed.

(** C3.  A call that passes the event-exists, published, registration-open
    and duplicate checks, and whose attendee document the store accepts,
    creates one registration: confirmed, with the counter of the event
    incremented by exactly 1, when [maxAttendees] is null or
    [currentAttendees < maxAttendees]; waitlisted, with the counter left
    as it was, when [currentAttendees >= maxAttendees].  The event is one
    the schema accepts ([maxAttendees] null or at least 1). *)
Theorem register_capacity_decision db id body rnd event :
  events db !! id = Some event →
  Event.status event = EventStatus.published →
  Event.registrationOpen event = true →
  EventRegistration_findOne id (email body) db = None →
  Event.maxAttendees_valid (Event.maxAttendees event) = true →
  creatable id body rnd db = true →
  ∃ r db' resp,
    exec (registerForEvent id body rnd) db = (db', resp) ∧
    registrations db' = (registrations db ++ [r])%list ∧
    statusCode resp = 201%nat ∧
    (∃ w, data resp = RegistrationData r w) ∧
    ((Event.maxAttendees event = None ∨
      (∃ m, Event.maxAttendees event = Some m ∧
            Event.currentAttendees event < m)) →
     EventRegistration.status r = RegStatus.confirmed ∧
     attendees id db' = Some (Event.currentAttendees event + 1)) ∧
    ((∃ m, Event.maxAttendees event = Some m ∧
           m <= Event.currentAttendees event) →
     EventRegistration.status r = RegStatus.waitlisted ∧
     attendees id db' = Some (Event.currentAttendees event)).
Proof.
  intros Hev Hst Hopen Hdup Hvalid Hcr.
  pose proof (capacityReached_false event Hvalid) as Hcap.
  unfold registerForEvent. simpl. rewrite Hev. simpl.
  rewrite Hst, Hopen. simpl. rewrite Hdup. simpl.
  fold (capacityReached event). fold (amountDue event).
  destruct (capacityReached event) eqn:Hfull.
  - destruct (create_creatable id body rnd db (Some RegStatus.waitlisted)
                None (amountDue event) Hcr) as (r & Hr & _ & Hs & _).
    simpl. rewrite Hr. simpl. exists r. eexists. eexists.
    split; [reflexivity|]. simpl.
    split; [reflexivity|]. split; [reflexivity|]. split; [eauto|].
    split.
    + intros H. apply Hcap in H. congruence.
    + intros _. split; [exact Hs|]. unfold attendees. simpl.
      by rewrite Hev.
  - destruct (create_creatable id body rnd db None
                (Some (if Event.isFree event then PaymentStatus.paid
                       else PaymentStatus.pending))
                (amountDue event) Hcr) as (r & Hr & _ & Hs & _).
    simpl. rewrite Hr. simpl. exists r. eexists. eexists.
    split; [reflexivity|]. simpl.
    split; [reflexivity|]. split; [reflexivity|]. split; [eauto|].
    split.
    + intros _. split; [exact Hs|].
      by apply (attendees_inc_eq id 1 (inserted r db) event).
    + intros (m & Hm & Hle). exfalso.
      destruct (proj1 Hcap eq_refl) as [Hn|(m' & Hm' & Hlt)]; [congruence|].
      rewrite Hm in Hm'. injection Hm' as <-. lia.
Qed.

(** C3 at the sample data: Alice takes the one seat of the walk. *)
Lemma register_capacity_decision_witness :
  ∃ r db' resp,
    exec (registerForEvent 1 Sample.alice "A1B2C3") Sample.db0 = (db', resp) ∧
    registrations db' = (registrations Sample.db0 ++ [r])%list ∧
    statusCode resp = 201%nat ∧
    (∃ w, data resp = RegistrationData r w) ∧
    ((Event.maxAttendees Sample.walk = None ∨
      (∃ m, Event.maxAttendees Sample.walk = Some m ∧
            Event.currentAttendees Sample.walk < m)) →
     EventRegistration.status r = RegStatus.confirmed ∧
     attendees 1 db' = Some (Event.currentAttendees Sample.walk + 1)) ∧
    ((∃ m, Event.maxAttendees Sample.walk = Some m ∧
           m <= Event.currentAttendees Sample.walk) →
     EventRegistration.status r = RegStatus.waitlisted ∧
     attendees 1 db' = Some (Event.currentAttendees Sample.walk)).
Proof.
  apply (register_capacity_decision Sample.db0 1 Sample.alice "A1B2C3"
           Sample.walk); vm_compute; reflexivity.
Defined.

(** ** The duplicate check *)

Lemma findOne_Some_iff id em db :
  EventRegistration_findOne id em db ≠ None ↔
  ∃ r s, em = Some s ∧ In r (registrations db) ∧
         EventRegistration.event r = id ∧
         EventRegistration.email r = EventRegistration.castEmail s.
Proof.
  unfold EventRegistration_findOne. destruct em as [s|].
  - split.
    + destruct (find _ _) as [r|] eqn:Hf; [intros _|congruence].
      apply find_some in Hf as [Hin Hb].
      apply andb_prop in Hb as [H1 H2].
      apply Nat.eqb_eq in H1. apply String.eqb_eq in H2. eauto 6.
    + intros (r & s' & [= <-] & Hin & H1 & H2) Hnone.
      pose proof (find_none _ _ Hnone r Hin) as Hb. simpl in Hb.
      apply Nat.eqb_eq in H1. apply String.eqb_eq in H2.
      rewrite H1, H2 in Hb. discriminate.
  - split; [congruence|]. intros (r & s & [=] & _).
Qed.

Lemma register_existing db id body rnd event x :
  events db !! id = Some event →
  Event.status event = EventStatus.published →
  Event.registrationOpen event = true →
  EventRegistration_findOne id (email body) db = Some x →
  exec (registerForEvent id body rnd) db = (db, alreadyRegistered).
Proof.
  intros Hev Hst Hopen Hdup. unfold registerForEvent. simpl.
  rewrite Hev. simpl. rewrite Hst, Hopen. simpl. by rewrite Hdup.
Qed.

Lemma register_fresh db id body rnd event :
  events db !! id = Some event →
  Event.status event = EventStatus.published →
  Event.registrationOpen event = true →
  EventRegistration_findOne id (email body) db = None →
  (exec (registerForEvent id body rnd) db).2 ≠ alreadyRegistered.
Proof.
  intros Hev Hst Hopen Hdup. unfold registerForEvent. simpl.
  rewrite Hev. simpl. rewrite Hst, Hopen. simpl. rewrite Hdup. simpl.
  destruct (_ && _); simpl; case_create; simpl; try discriminate;
    destruct e; discriminate.
Qed.

Lemma validated_email v e :
  Validate.email v = inr e →
  ∃ s, v = Some s ∧ e = EventRegistration.castEmail s.
Proof.
  unfold Validate.email, Validate.requiredString. destruct v as [s|];
    [|discriminate].
  simpl. destruct (String.eqb _ ""); [discriminate|].
  destruct (_ <? _)%nat; [discriminate|].
  destruct (EventRegistration.emailMatch _); [|discriminate].
  intros [= <-]. eauto.
Qed.

Lemma findOne_inserted id s r db :
  EventRegistration.event r = id →
  EventRegistration.email r = EventRegistration.castEmail s →
  EventRegistration_findOne id (Some s) (inserted r db) ≠ None.
Proof.
  intros H1 H2. apply findOne_Some_iff. exists r, s.
  split; [done|]. split; [|done]. simpl. apply in_or_app. right. by left.
Qed.

(** C6, as the code has it.  On an existing, published event with open
    registration, [registerForEvent] answers 400 "already registered",
    changing nothing, exactly when some registration of the same event
    carries the same (trimmed, lower-cased) email, whatever its status,
    cancelled included; and after a successful registration, confirmed or
    waitlisted, a second attempt with the same email gets that answer. *)
Theorem register_duplicate_check db id body rnd event :
  events db !! id = Some event →
  Event.status event = EventStatus.published →
  Event.registrationOpen event = true →
  (exec (registerForEvent id body rnd) db = (db, alreadyRegistered) ↔
   ∃ r s, email body = Some s ∧ In r (registrations db) ∧
          EventRegistration.event r = id ∧
          EventRegistration.email r = EventRegistration.castEmail s) ∧
  (∀ db1 resp1 body2 rnd2,
      exec (registerForEvent id body rnd) db = (db1, resp1) →
      success resp1 = true →
      email body2 = email body →
      exec (registerForEvent id body2 rnd2) db1 = (db1, alreadyRegistered)).
Proof.
  intros Hev Hst Hopen. split.
  - rewrite <- findOne_Some_iff. split.
    + intros Hres Hnone.
      apply (register_fresh db id body rnd event Hev Hst Hopen Hnone).
      by rewrite Hres.
    + destruct (EventRegistration_findOne id (email body) db) as [x|] eqn:Hf;
        [intros _|congruence].
      by apply (register_existing db id body rnd event x).
  - intros db1 resp1 body2 rnd2 Hex Hok Hmail.
    pose proof (register_outcome id body rnd db) as Hout.
    rewrite Hex in Hout.
    inversion Hout as [resp Hfail|ev r Hev' _ Hr _ _ _ _ Hem|ev r Hev' _ Hr _ _ _ _ Hem];
      subst.
    + congruence.
    + apply validated_email in Hem as (s & Hs & Hcast).
      destruct (EventRegistration_findOne (EventRegistration.event r)
                  (email body2)
                  (Event_incCurrentAttendees (EventRegistration.event r) 1
                     (inserted r db))) as [x|] eqn:Hf.
      * eapply register_existing; [| | |exact Hf].
        -- unfold Event_incCurrentAttendees. simpl.
           rewrite lookup_alter_eq, Hev. reflexivity.
        -- exact Hst.
        -- exact Hopen.
      * exfalso. rewrite Hmail, Hs in Hf.
        by apply (findOne_inserted (EventRegistration.event r) s r db).
    + apply validated_email in Hem as (s & Hs & Hcast).
      destruct (EventRegistration_findOne (EventRegistration.event r)
                  (email body2) (inserted r db)) as [x|] eqn:Hf.
      * by apply (register_existing _ _ body2 rnd2 event x).
      * exfalso. rewrite Hmail, Hs in Hf.
        by apply (findOne_inserted (EventRegistration.event r) s r db).
Qed.

(** C6 at the sample data: Alice, already registered, tries again. *)
Lemma register_duplicate_check_witness :
  (exec (registerForEvent 1 Sample.alice "G7H8I9") Sample.afterAlice =
     (Sample.afterAlice, alreadyRegistered) ↔
   ∃ r s, email Sample.alice = Some s ∧
          In r (registrations Sample.afterAlice) ∧
          EventRegistration.event r = 1%nat ∧
          EventRegistration.email r = EventRegistration.castEmail s) ∧
  (∀ db1 resp1 body2 rnd2,
      exec (registerForEvent 1 Sample.alice "G7H8I9") Sample.afterAlice =
        (db1, resp1) →
      success resp1 = true →
      email body2 = email Sample.alice →
      exec (registerForEvent 1 body2 rnd2) db1 = (db1, alreadyRegistered)).
Proof.
  apply (register_duplicate_check Sample.afterAlice 1 Sample.alice "G7H8I9"
           Scenario.walkFull); vm_compute; reflexivity.
Defined.

(** C6 as stated fails: the only registration of the walk is Alice's, and
    it is cancelled, yet her new registration is refused as a duplicate. *)
Lemma cancelled_registration_blocks_new_one :
  map EventRegistration.status (registrations Scenario.aliceCancelled) =
    [RegStatus.cancelled] ∧
  attendees 1 Scenario.aliceCancelled = Some 0 ∧
  exec (registerForEvent 1 Sample.alice "G7H8I9") Scenario.aliceCancelled =
    (Scenario.aliceCancelled, alreadyRegistered).
Proof. vm_compute. auto. Qed.

(** ** The generic update *)

Lemma updateEvent_valid db id p e :
  events db !! id = Some e →
  validatePatch p = [] →
  exec (updateEvent id p) db =
    (mkDb (<[id := applyPatch p e]> (events db)) (registrations db) (nextId db),
     mkResponse 200 true (Some "Event updated successfully") []
       (EventData (applyPatch p e))).
Proof.
  intros He Hv. unfold updateEvent. simpl.
  unfold Event_findByIdAndUpdate. by rewrite Hv, He.
Qed.

Lemma updateEvent_invalid db id p :
  validatePatch p ≠ [] →
  exec (updateEvent id p) db =
    (db, mkResponse 400 false (Some "Validation failed") (validatePatch p)
           NoData).
Proof.
  intros Hv. unfold updateEvent. simpl. unfold Event_findByIdAndUpdate.
  destruct (validatePatch p); [done|reflexivity].
Qed.

(** C8, as the code has it.  [updateEvent] does not reject a patch that
    sets [currentAttendees].  A patch that passes the update validators is
    applied with status 200: the counter of the event becomes the value the
    patch carries, and keeps its value when the patch carries none.  A patch
    that fails validation is answered 400 and changes nothing. *)
Theorem updateEvent_currentAttendees db id p e :
  events db !! id = Some e →
  (validatePatch p = [] →
   statusCode (exec (updateEvent id p) db).2 = 200%nat ∧
   attendees id (exec (updateEvent id p) db).1 =
     Some (default (Event.currentAttendees e) (p_currentAttendees p))) ∧
  (validatePatch p ≠ [] →
   statusCode (exec (updateEvent id p) db).2 = 400%nat ∧
   (exec (updateEvent id p) db).1 = db).
Proof.
  intros He. split; intros Hv.
  - rewrite (updateEvent_valid db id p e He Hv). split; [reflexivity|].
    unfold attendees. simpl. rewrite lookup_insert_eq. reflexivity.
  - rewrite (updateEvent_invalid db id p Hv). split; reflexivity.
Qed.

Lemma updateEvent_currentAttendees_witness :
  (validatePatch (mkPatch None None (Some (Some 30)) (Some 7) None None None)
     = [] →
   statusCode (exec (updateEvent 1
       (mkPatch None None (Some (Some 30)) (Some 7) None None None))
       Sample.db0).2 = 200%nat ∧
   attendees 1 (exec (updateEvent 1
       (mkPatch None None (Some (Some 30)) (Some 7) None None None))
       Sample.db0).1 =
     Some (default (Event.currentAttendees Sample.walk) (Some 7))) ∧
  (validatePatch (mkPatch None None (Some (Some 30)) (Some 7) None None None)
     ≠ [] →
   statusCode (exec (updateEvent 1
       (mkPatch None None (Some (Some 30)) (Some 7) None None None))
       Sample.db0).2 = 400%nat ∧
   (exec (updateEvent 1
       (mkPatch None None (Some (Some 30)) (Some 7) None None None))
       Sample.db0).1 = Sample.db0).
Proof.
  apply (updateEvent_currentAttendees Sample.db0 1
           (mkPatch None None (Some (Some 30)) (Some 7) None None None)
           Sample.walk).
  vm_compute. reflexivity.
Defined.

(** C8 as stated fails: a patch that sets [currentAttendees] to 5 is
    accepted, and the counter of the walk goes from 0 to 5. *)
Lemma updateEvent_overwrites_counter :
  attendees 1 Sample.db0 = Some 0 ∧
  statusCode (exec (updateEvent 1
      (mkPatch None None None (Some 5) None None None)) Sample.db0).2
    = 200%nat ∧
  attendees 1 (exec (updateEvent 1
      (mkPatch None None None (Some 5) None None None)) Sample.db0).1
    = Some 5.
Proof. vm_compute. auto. Qed.

(** ** Counting confirmed registrations *)

Lemma confirmedCount_inserted ev r db :
  confirmedCount ev (inserted r db) =
    confirmedCount ev db + (if isConfirmedFor ev r then 1 else 0).
Proof.
  unfold confirmedCount, inserted. simpl.
  rewrite List.filter_app, List.length_app. simpl.
  destruct (isConfirmedFor ev r); simpl; lia.
Qed.

Lemma confirmedCount_inc ev id d db :
  confirmedCount ev (Event_incCurrentAttendees id d db) = confirmedCount ev db.
Proof. reflexivity. Qed.

Lemma confirmedCount_nonneg ev db : 0 <= confirmedCount ev db.
Proof. unfold confirmedCount. lia. Qed.

Lemma isConfirmedFor_other ev r :
  EventRegistration.event r ≠ ev → isConfirmedFor ev r = false.
Proof.
  intros H. unfold isConfirmedFor.
  destruct (Nat.eqb_spec (EventRegistration.event r) ev); [done|reflexivity].
Qed.

Lemma isConfirmedFor_confirmed r :
  EventRegistration.status r = RegStatus.confirmed →
  isConfirmedFor (EventRegistration.event r) r = true.
Proof.
  intros H. unfold isConfirmedFor. by rewrite Nat.eqb_refl, H.
Qed.

Lemma isConfirmedFor_waitlisted ev r :
  EventRegistration.status r = RegStatus.waitlisted →
  isConfirmedFor ev r = false.
Proof.
  intros H. unfold isConfirmedFor. rewrite H. apply andb_false_r.
Qed.

(** Served alone, [registerForEvent] keeps every counter in step with the
    confirmed registrations of its event. *)
Lemma register_preserves_consistency ev id body rnd db :
  counterConsistent ev db →
  counterConsistent ev (exec (registerForEvent id body rnd) db).1.
Proof.
  intros Hc. unfold counterConsistent in *.
  destruct (register_outcome id body rnd db)
    as [resp _|event r Hev _ Hr _ Hs _ _ _|event r Hev _ Hr _ Hs _ _ _]; simpl.
  - exact Hc.
  - rewrite confirmedCount_inc, confirmedCount_inserted.
    destruct (decide (id = ev)) as [->|Hne].
    + rewrite (attendees_inc_eq ev 1 (inserted r db) event Hev).
      rewrite <- Hr, (isConfirmedFor_confirmed r Hs), Hr.
      unfold attendees in Hc. rewrite Hev in Hc. simpl in Hc.
      injection Hc as ->. reflexivity.
    + rewrite attendees_inc_ne by done.
      rewrite isConfirmedFor_other by congruence.
      rewrite Z.add_0_r. exact Hc.
  - rewrite confirmedCount_inserted, (isConfirmedFor_waitlisted ev r Hs).
    rewrite Z.add_0_r. exact Hc.
Qed.

(** ** Capacity under serial and interleaved service *)

Section SerialCapacity.

Variable id : ObjectId.
Variable N : Z.
Hypothesis capacity_positive : 1 <= N.

Lemma capacityReached_bounded e :
  Event.maxAttendees e = Some N →
  capacityReached e = false → Event.currentAttendees e < N.
Proof.
  intros Hm. unfold capacityReached, Event.maxAttendees_truthy.
  rewrite Hm. simpl.
  replace (N =? 0) with false by (symmetry; apply Z.eqb_neq; lia).
  simpl. apply Z.leb_gt.
Qed.

Lemma register_withinCapacity rq db :
  withinCapacity id N db → withinCapacity id N (exec (serve rq) db).1.
Proof.
  intros (e & He & Hm & Hc & Hle). unfold serve.
  destruct (register_outcome (rq_event rq) (rq_body rq) (rq_rnd rq) db)
    as [resp _|event r Hev Hcap Hr _ Hs _ _ _|event r Hev _ Hr _ Hs _ _ _]; simpl.
  - by exists e.
  - destruct (decide (rq_event rq = id)) as [Heq|Hne].
    + rewrite Heq in *. rewrite He in Hev. injection Hev as <-.
      pose proof (capacityReached_bounded e Hm Hcap) as Hlt.
      exists (Event.inc_currentAttendees 1 e).
      split; [unfold Event_incCurrentAttendees; simpl;
              by rewrite lookup_alter_eq, He|].
      split; [exact Hm|].
      rewrite confirmedCount_inc, confirmedCount_inserted. simpl.
      destruct (isConfirmedFor id r); lia.
    + exists e.
      split; [unfold Event_incCurrentAttendees; simpl;
              by rewrite lookup_alter_ne|].
      split; [exact Hm|].
      rewrite confirmedCount_inc, confirmedCount_inserted.
      rewrite isConfirmedFor_other by congruence. lia.
  - exists e. split; [exact He|]. split; [exact Hm|].
    rewrite confirmedCount_inserted, (isConfirmedFor_waitlisted id r Hs).
    lia.
Qed.

Lemma serveSerially_withinCapacity reqs db :
  withinCapacity id N db → withinCapacity id N (serveSerially reqs db).
Proof.
  revert db. induction reqs as [|rq reqs IH]; intros db Hw.
  - exact Hw.
  - simpl. apply IH. by apply register_withinCapacity.
Qed.

End SerialCapacity.

(** C2, as the code has it.  The handler reads the counter, decides, writes
    the registration and increments the counter in separate store calls,
    with nothing that serialises them.  When the requests are served one
    after the other, from a state in which the confirmed registrations of
    the event do not outnumber [currentAttendees] and [currentAttendees]
    does not exceed [maxAttendees = N], the confirmed registrations never
    exceed [N]. *)
Theorem serial_registrations_respect_capacity db id N event reqs :
  events db !! id = Some event →
  Event.maxAttendees event = Some N →
  1 <= N →
  confirmedCount id db <= Event.currentAttendees event →
  Event.currentAttendees event <= N →
  confirmedCount id (serveSerially reqs db) <= N.
Proof.
  intros He Hm HN Hc Hle.
  destruct (serveSerially_withinCapacity id N HN reqs db) as (e & _ & _ & ? & ?).
  - by exists event.
  - lia.
Qed.

Lemma serial_registrations_respect_capacity_witness :
  confirmedCount 1
    (serveSerially [mkRequest 1 Sample.alice "A1B2C3";
                    mkRequest 1 Sample.bob "D4E5F6";
                    mkRequest 1 Sample.carol "G7H8I9"] Sample.db0) <= 1.
Proof.
  apply (serial_registrations_respect_capacity Sample.db0 1 1 Sample.walk);
    vm_compute; congruence.
Defined.

(** A handler that runs alone under the scheduler does what [exec] says. *)
Lemma schedule_alone {R} (h : Handler R) db :
  ∃ n, schedule (replicate n 0%nat) (db, [h]) =
         ((exec h db).1, [Done (exec h db).2]).
Proof.
  revert db. induction h as [r|A op k IH]; intros db.
  - by exists 0%nat.
  - simpl. destruct (perform op db) as [db' a] eqn:Hp.
    destruct (IH a db') as [n Hn]. exists (S n). simpl.
    unfold stepThread at 1. simpl. rewrite Hp. simpl. exact Hn.
Qed.

(** C2 as stated fails.  Alice and Bob ask for the one seat of the walk;
    each handler reads the event before the other has written.  Both
    requests end with "Registration successful", both registrations are
    confirmed, and the event with [maxAttendees = 1] has two confirmed
    registrations. *)
Lemma concurrent_registrations_oversell :
  Event.maxAttendees Sample.walk = Some 1 ∧
  attendees 1 Sample.db0 = Some 0 ∧
  confirmedCount 1 Sample.db0 = 0 ∧
  map (λ h, message <$> finished h)
      (schedule Scenario.alternate (Sample.db0, Scenario.race)).2 =
    [Some (Some "Registration successful");
     Some (Some "Registration successful")] ∧
  map EventRegistration.status
      (registrations (schedule Scenario.alternate
                        (Sample.db0, Scenario.race)).1) =
    [RegStatus.confirmed; RegStatus.confirmed] ∧
  confirmedCount 1 (schedule Scenario.alternate (Sample.db0, Scenario.race)).1
    = 2.
Proof. vm_compute. auto 10. Qed.

(** ** Cancellation *)

(** Whatever the status of the registration it finds, [cancelRegistration]
    marks it cancelled, adds -1 to the counter of its event and answers 200;
    there is no test of the previous status and no floor at 0. *)
Lemma cancel_found db rid r :
  EventRegistration_findById rid db = Some r →
  exec (cancelRegistration rid) db =
    (Event_incCurrentAttendees (EventRegistration.event r) (-1)
       (EventRegistration_save
          (EventRegistration.set_status RegStatus.cancelled r) db),
     mkResponse 200 true (Some "Registration cancelled successfully") []
       NoData).
Proof.
  intros Hf. unfold cancelRegistration. simpl. by rewrite Hf.
Qed.

Lemma cancel_always_decrements db rid r e :
  EventRegistration_findById rid db = Some r →
  events db !! EventRegistration.event r = Some e →
  attendees (EventRegistration.event r) (exec (cancelRegistration rid) db).1 =
    Some (Event.currentAttendees e - 1).
Proof.
  intros Hf He. rewrite (cancel_found db rid r Hf). simpl.
  rewrite (attendees_inc_eq _ (-1) _ e); [reflexivity|exact He].
Qed.

Lemma cancel_missing db rid :
  EventRegistration_findById rid db = None →
  exec (cancelRegistration rid) db = (db, failure 404 "Registration not found").
Proof.
  intros Hf. unfold cancelRegistration. simpl. by rewrite Hf.
Qed.

(** C1, evaluated.  After Alice (confirmed) and Bob (waitlisted) have
    registered, the counter of the walk equals its number of confirmed
    registrations.  Bob cancels: the counter drops to 0 while Alice's
    confirmed registration is still there. *)
Theorem cancel_waitlisted_breaks_counter_consistency :
  counterConsistent 1 Sample.afterBob ∧
  map EventRegistration.status (registrations Scenario.bobCancelled) =
    [RegStatus.confirmed; RegStatus.cancelled] ∧
  attendees 1 Scenario.bobCancelled = Some 0 ∧
  confirmedCount 1 Scenario.bobCancelled = 1 ∧
  ¬ counterConsistent 1 Scenario.bobCancelled.
Proof.
  split; [vm_compute; reflexivity|]. split; [vm_compute; reflexivity|].
  split; [vm_compute; reflexivity|]. split; [vm_compute; reflexivity|].
  vm_compute. discriminate.
Qed.

(** C4, evaluated.  Cancelling Alice's confirmed registration takes the
    counter of the walk from 1 to 0; cancelling Bob's waitlisted
    registration instead takes it from 1 to 0 as well. *)
Theorem cancel_waitlisted_decrements_counter :
  attendees 1 Sample.afterBob = Some 1 ∧
  (EventRegistration.status <$> EventRegistration_findById 100 Sample.afterBob
     = Some RegStatus.confirmed ∧
   attendees 1 (exec (cancelRegistration 100) Sample.afterBob).1 = Some 0) ∧
  (EventRegistration.status <$> EventRegistration_findById 101 Sample.afterBob
     = Some RegStatus.waitlisted ∧
   statusCode (exec (cancelRegistration 101) Sample.afterBob).2 = 200%nat ∧
   attendees 1 (exec (cancelRegistration 101) Sample.afterBob).1 = Some 0).
Proof. vm_compute. auto 10. Qed.

(** C5 as stated fails.  Alice's registration is already cancelled and the
    counter of the walk is 0.  A second cancellation is not refused: it is
    answered 200 "Registration cancelled successfully", and the counter
    goes to -1. *)
Lemma cancel_twice_succeeds_and_decrements :
  EventRegistration.status <$>
    EventRegistration_findById 100 Scenario.aliceCancelled
    = Some RegStatus.cancelled ∧
  attendees 1 Scenario.aliceCancelled = Some 0 ∧
  (exec (cancelRegistration 100) Scenario.aliceCancelled).2 =
    mkResponse 200 true (Some "Registration cancelled successfully") []
      NoData ∧
  attendees 1 (exec (cancelRegistration 100) Scenario.aliceCancelled).1
    = Some (-1).
Proof. vm_compute. auto 10. Qed.

(** C7, evaluated.  Alice registers (confirmed), Bob registers
    (waitlisted), then both cancel: the counter of the walk ends at -1, and
    the event with one seat reports two spots left. *)
Theorem cancellations_drive_counter_negative :
  attendees 1 Sample.db0 = Some 0 ∧
  map EventRegistration.status (registrations Scenario.bothCancelled) =
    [RegStatus.cancelled; RegStatus.cancelled] ∧
  attendees 1 Scenario.bothCancelled = Some (-1) ∧
  Event.spotsLeft <$> events Scenario.bothCancelled !! 1%nat = Some (Some 2).
Proof. vm_compute. auto. Qed.

Lemma find_map_same {A} (p : A → bool) (f : A → A) (l : list A) :
  (∀ x, p (f x) = p x) →
  List.find p (map f l) = f <$> List.find p l.
Proof.
  intros Hp. induction l as [|x l IH]; [reflexivity|].
  simpl. rewrite Hp. destruct (p x); [reflexivity|exact IH].
Qed.

Lemma set_status_same r :
  EventRegistration.set_status (EventRegistration.status r) r = r.
Proof. by destruct r. Qed.

Lemma findById_save rid r db :
  EventRegistration_findById rid (EventRegistration_save r db) =
    (λ r', if Nat.eqb (EventRegistration._id r') (EventRegistration._id r)
           then EventRegistration.set_status (EventRegistration.status r) r'
           else r') <$> EventRegistration_findById rid db.
Proof.
  unfold EventRegistration_findById, EventRegistration_save. simpl.
  apply find_map_same. intros x.
  by destruct (Nat.eqb (EventRegistration._id x) (EventRegistration._id r)).
Qed.

Lemma findById_id rid r db :
  EventRegistration_findById rid db = Some r → EventRegistration._id r = rid.
Proof.
  unfold EventRegistration_findById. intros H.
  apply find_some in H as [_ H]. by apply Nat.eqb_eq in H.
Qed.

(** C5, as the code has it.  [cancelRegistration] has no test for a
    registration that is already cancelled: the call is answered 200
    "Registration cancelled successfully", and the registration is found
    afterwards as it was, still cancelled. *)
Theorem cancel_already_cancelled db rid r :
  EventRegistration_findById rid db = Some r →
  EventRegistration.status r = RegStatus.cancelled →
  (exec (cancelRegistration rid) db).2 =
    mkResponse 200 true (Some "Registration cancelled successfully") []
      NoData ∧
  EventRegistration_findById rid (exec (cancelRegistration rid) db).1 = Some r.
Proof.
  intros Hf Hs. rewrite (cancel_found db rid r Hf). simpl.
  split; [reflexivity|].
  change (EventRegistration_findById rid
            (EventRegistration_save
               (EventRegistration.set_status RegStatus.cancelled r) db)
          = Some r).
  rewrite findById_save, Hf. simpl.
  rewrite Nat.eqb_refl, <- Hs. by rewrite set_status_same.
Qed.

Lemma cancel_already_cancelled_witness :
  (exec (cancelRegistration 100) Scenario.aliceCancelled).2 =
    mkResponse 200 true (Some "Registration cancelled successfully") []
      NoData ∧
  EventRegistration_findById 100
    (exec (cancelRegistration 100) Scenario.aliceCancelled).1 =
    Some (EventRegistration.mk 100 1 "Alice" "Archer" "alice@example.com"
            (Some "555-0100") None "PV-PRI-A1B2C3" RegStatus.cancelled
            PaymentStatus.paid 0).
Proof.
  apply (cancel_already_cancelled Scenario.aliceCancelled 100);
    vm_compute; reflexivity.
Defined.


(** ** Amount and payment status *)

(** On a free event the amount of a created registration is 0; a confirmed
    one is marked paid, a waitlisted one is left at the schema default,
    pending. *)
Lemma register_free_event db id body rnd event :
  events db !! id = Some event →
  Event.isFree event = true →
  success (exec (registerForEvent id body rnd) db).2 = true →
  ∃ r w, data (exec (registerForEvent id body rnd) db).2 =
           RegistrationData r w ∧
         EventRegistration.amount r = 0 ∧
         (EventRegistration.status r = RegStatus.confirmed ∧
          EventRegistration.paymentStatus r = PaymentStatus.paid ∨
          EventRegistration.status r = RegStatus.waitlisted ∧
          EventRegistration.paymentStatus r = PaymentStatus.pending).
Proof.
  intros Hev Hfree.
  destruct (register_outcome id body rnd db)
    as [resp Hno|ev r Hev' _ _ _ Hs Hp Ha _|ev r Hev' _ _ _ Hs Hp Ha _]; simpl.
  - congruence.
  - intros _. rewrite Hev in Hev'. injection Hev' as <-.
    unfold amountDue in Ha. rewrite Hfree in Ha, Hp. eauto 10.
  - intros _. rewrite Hev in Hev'. injection Hev' as <-.
    unfold amountDue in Ha. rewrite Hfree in Ha. eauto 10.
Qed.

(** C9, evaluated.  The walk is free and full.  Bob's registration is
    created waitlisted with amount 0, and its payment status is pending,
    not paid; Alice's confirmed registration on the same event is paid. *)
Theorem waitlisted_free_registration_is_pending :
  Event.isFree Sample.walk = true ∧
  map (λ r, (EventRegistration.status r, EventRegistration.paymentStatus r,
             EventRegistration.amount r))
      (registrations Sample.afterBob) =
    [(RegStatus.confirmed, PaymentStatus.paid, 0);
     (RegStatus.waitlisted, PaymentStatus.pending, 0)].
Proof. vm_compute. auto. Qed.

(** ** Invariants of the engine *)

Lemma validatePatch_maxAttendees p :
  validatePatch p = [] →
  ∀ m, p_maxAttendees p = Some m → Event.maxAttendees_valid m = true.
Proof.
  unfold validatePatch. intros Hv m Hm. rewrite Hm in Hv.
  destruct (Event.maxAttendees_valid m); [reflexivity|].
  apply app_eq_nil in Hv as [_ Hv]. discriminate.
Qed.

Lemma schemaValid_alter_inc id d db :
  schemaValid db → schemaValid (Event_incCurrentAttendees id d db).
Proof.
  intros Hs id' e'. unfold Event_incCurrentAttendees. simpl.
  rewrite lookup_alter. case_decide as Heq.
  - subst id'. destruct (events db !! id) as [e|] eqn:He; [|discriminate].
    simpl. intros [= <-]. exact (Hs id e He).
  - apply Hs.
Qed.

Lemma handle_schemaValid rq db :
  schemaValid db → schemaValid (exec (handle rq) db).1.
Proof.
  intros Hs. destruct rq as [id body rnd|rid|id p|q]; simpl handle.
  - destruct (register_outcome id body rnd db); simpl; [done| |done].
    by apply (schemaValid_alter_inc id 1 (inserted r db)).
  - destruct (EventRegistration_findById rid db) as [r|] eqn:Hf.
    + rewrite (cancel_found db rid r Hf). simpl.
      by apply (schemaValid_alter_inc _ (-1) (EventRegistration_save _ db)).
    + by rewrite (cancel_missing db rid Hf).
  - destruct (validatePatch p) as [|err errs] eqn:Hv.
    + destruct (events db !! id) as [e|] eqn:He.
      * rewrite (updateEvent_valid db id p e He Hv). simpl.
        intros id' e'. simpl. rewrite lookup_insert. case_decide as Heq.
        -- subst id'. intros [= <-]. simpl.
           destruct (p_maxAttendees p) as [m|] eqn:Hm; simpl.
           ++ by apply (validatePatch_maxAttendees p Hv).
           ++ exact (Hs id e He).
        -- apply Hs.
      * unfold updateEvent. simpl. unfold Event_findByIdAndUpdate.
        by rewrite Hv, He.
    + rewrite updateEvent_invalid by (rewrite Hv; discriminate). done.
  - done.
Qed.

(** In every state the engine reaches from a store that satisfies the
    schema, each event has [maxAttendees] null or at least 1. *)
Lemma serveAll_schemaValid reqs db :
  schemaValid db → schemaValid (serveAll reqs db).
Proof.
  revert db. induction reqs as [|rq reqs IH]; intros db Hs; [done|].
  simpl. apply IH. by apply handle_schemaValid.
Qed.

Lemma idsFresh_inserted r db :
  EventRegistration._id r = nextId db →
  idsFresh db → idsFresh (inserted r db).
Proof.
  intros Hid [Hnd Hlt]. split; simpl.
  - rewrite map_app. simpl. apply NoDup_app. split; [done|].
    split; [|apply NoDup_singleton].
    intros x Hx Hx'. apply list_elem_of_singleton in Hx'. subst x.
    apply list_elem_of_fmap in Hx as (r' & Heq & Hin).
    rewrite Forall_forall in Hlt. specialize (Hlt r' Hin). lia.
  - apply Forall_app. split.
    + eapply Forall_impl; [exact Hlt|]. simpl. intros. lia.
    + apply Forall_singleton. lia.
Qed.

Lemma idsFresh_save r db :
  idsFresh db → idsFresh (EventRegistration_save r db).
Proof.
  intros [Hnd Hlt]. unfold EventRegistration_save. split; simpl.
  - rewrite map_map.
    erewrite map_ext; [exact Hnd|]. intros x. simpl.
    by destruct (Nat.eqb _ _).
  - apply Forall_fmap. eapply Forall_impl; [exact Hlt|].
    intros x Hx. simpl. by destruct (Nat.eqb _ _).
Qed.

Lemma handle_idsFresh rq db : idsFresh db → idsFresh (exec (handle rq) db).1.
Proof.
  intros Hi. destruct rq as [id body rnd|rid|id p|q]; simpl handle.
  - destruct (register_outcome id body rnd db); simpl; [done| |].
    + by apply (idsFresh_inserted r db).
    + by apply idsFresh_inserted.
  - destruct (EventRegistration_findById rid db) as [r|] eqn:Hf.
    + rewrite (cancel_found db rid r Hf). simpl.
      by apply (idsFresh_save _ db).
    + by rewrite (cancel_missing db rid Hf).
  - unfold updateEvent. simpl. unfold Event_findByIdAndUpdate.
    destruct (validatePatch p); [|done].
    by destruct (events db !! id).
  - done.
Qed.

Lemma serveAll_idsFresh reqs db : idsFresh db → idsFresh (serveAll reqs db).
Proof.
  revert db. induction reqs as [|rq reqs IH]; intros db Hs; [done|].
  simpl. apply IH. by apply handle_idsFresh.
Qed.

(** Marking the registration [r] cancelled removes it, and nothing else,
    from the confirmed registrations. *)
Lemma confirmed_after_cancel ev rid r (l : list EventRegistration.t) :
  NoDup (map EventRegistration._id l) →
  List.find (λ x, Nat.eqb (EventRegistration._id x) rid) l = Some r →
  EventRegistration.status r = RegStatus.confirmed →
  (List.length
     (List.filter (isConfirmedFor ev)
        (map (λ x, if Nat.eqb (EventRegistration._id x) rid
                   then EventRegistration.set_status RegStatus.cancelled x
                   else x) l)) +
   (if Nat.eqb (EventRegistration.event r) ev then 1 else 0))%nat =
  List.length (List.filter (isConfirmedFor ev) l).
Proof.
  intros Hnd Hf Hs. induction l as [|x l IH]; [discriminate|].
  simpl in Hnd. apply NoDup_cons in Hnd as [Hx Hnd].
  simpl in Hf. simpl.
  destruct (Nat.eqb (EventRegistration._id x) rid) eqn:Hid.
  - injection Hf as ->. apply Nat.eqb_eq in Hid.
    replace (map _ l) with l.
    + assert (isConfirmedFor ev
                (EventRegistration.set_status RegStatus.cancelled r) = false)
        as -> by (unfold isConfirmedFor; simpl; apply andb_false_r).
      assert (isConfirmedFor ev r = Nat.eqb (EventRegistration.event r) ev)
        as -> by (unfold isConfirmedFor; rewrite Hs; apply andb_true_r).
      destruct (Nat.eqb (EventRegistration.event r) ev); simpl; lia.
    + symmetry. rewrite <- (map_id l) at 2. apply map_ext_in.
      intros y Hy. destruct (Nat.eqb_spec (EventRegistration._id y) rid);
        [|reflexivity].
      exfalso. apply Hx. apply list_elem_of_fmap. exists y.
      split; [congruence|]. by apply list_elem_of_In.
  - specialize (IH Hnd Hf).
    destruct (isConfirmedFor ev x); simpl; lia.
Qed.

(** Cancelling a confirmed registration keeps the counter of every event
    in step with its confirmed registrations; with
    [register_preserves_consistency], only the cancellation of a
    registration that is not confirmed breaks the agreement. *)
Lemma cancel_confirmed_preserves_consistency ev rid r db :
  idsFresh db →
  EventRegistration_findById rid db = Some r →
  EventRegistration.status r = RegStatus.confirmed →
  counterConsistent ev db →
  counterConsistent ev (exec (cancelRegistration rid) db).1.
Proof.
  intros [Hnd _] Hf Hs Hc. rewrite (cancel_found db rid r Hf). simpl.
  pose proof (findById_id rid r db Hf) as Hrid.
  pose proof (confirmed_after_cancel ev rid r (registrations db) Hnd Hf Hs)
    as Hcount.
  unfold counterConsistent in *. rewrite confirmedCount_inc.
  unfold confirmedCount at 1. unfold EventRegistration_save. simpl.
  rewrite Hrid.
  unfold confirmedCount in Hc.
  destruct (Nat.eqb_spec (EventRegistration.event r) ev) as [Heq|Hne].
  - subst ev. unfold attendees in *.
    destruct (events db !! EventRegistration.event r) as [e|] eqn:He;
      [|discriminate].
    simpl in Hc. injection Hc as Hc.
    unfold Event_incCurrentAttendees. simpl.
    rewrite lookup_alter_eq, He. simpl. f_equal. lia.
  - rewrite attendees_inc_ne by done.
    unfold attendees in *. simpl. rewrite Hc. f_equal. lia.
Qed.

(** ** The public listing *)

Lemma stored_allEvents db e : e ∈ allEvents db ↔ stored db e.
Proof.
  unfold allEvents, stored. rewrite list_elem_of_fmap. split.
  - intros ([id e'] & -> & Hin). exists id. by apply elem_of_map_to_list.
  - intros [id Hid]. exists (id, e). split; [done|].
    by apply elem_of_map_to_list.
Qed.

Lemma matchesFilter_getEvents q e :
  Is_true (matchesFilter (getEventsFilter q) e) ↔
  statusSelected q e ∧ featuredSelected q e.
Proof.
  unfold matchesFilter, getEventsFilter, statusSelected, featuredSelected.
  simpl. rewrite andb_True.
  assert (Is_true
            (match (if negb (String.eqb (default "published" (q_status q)) "all")
                    then Some (default "published" (q_status q)) else None) with
             | Some s => String.eqb (EventStatus.toString (Event.status e)) s
             | None => true
             end) ↔
          (default "published" (q_status q) = "all" ∨
           EventStatus.toString (Event.status e) =
             default "published" (q_status q))) as Hs.
  { destruct (String.eqb (default "published" (q_status q)) "all") eqn:Hall;
      simpl.
    - apply String.eqb_eq in Hall. tauto.
    - apply String.eqb_neq in Hall. rewrite Is_true_true, String.eqb_eq.
      tauto. }
  assert (Is_true
            (match (match q_featured q with
                    | Some f => if String.eqb f "true" then Some true else None
                    | None => None
                    end) with
             | Some b => Bool.eqb (Event.featured e) b
             | None => true
             end) ↔
          (q_featured q = Some "true" → Event.featured e = true)) as Hf.
  { destruct (q_featured q) as [f|]; [|by split].
    destruct (String.eqb f "true") eqn:Hf.
    - apply String.eqb_eq in Hf. subst f.
      destruct (Event.featured e); simpl; split; try done.
      intros H. by specialize (H eq_refl).
    - apply String.eqb_neq in Hf. split; [|done].
      intros _ [= ->]. done. }
  tauto.
Qed.

Lemma matching_getEvents db q e :
  e ∈ matching (getEventsFilter q) db ↔
  stored db e ∧ statusSelected q e ∧ featuredSelected q e.
Proof.
  unfold matching. rewrite list_elem_of_filter, matchesFilter_getEvents,
    stored_allEvents. tauto.
Qed.

(** C10.  [GET /api/events] is routed to [getEvents] with no [protect]
    middleware in front.  The handler selects the stored events whose
    status is the one given in the query string, [published] when none is
    given, and the events of every status when it is [all] (narrowed to
    featured events by [featured=true]); [total] counts the selected events,
    every listed event is a selected one (without its full description), and
    a first page that is large enough lists them all. *)
Theorem getEvents_filters_by_supplied_status db q :
  Route.dispatch Route.GET [] =
    Some (Route.mk Route.GET [] false Route.getEvents) ∧
  ∃ found total pages,
    exec (getEvents q) db =
      (db, mkResponse 200 true None []
             (EventsData found (default 1%positive (q_page q))
                (default 20%positive (q_limit q)) total pages)) ∧
    total = List.length (matching (getEventsFilter q) db) ∧
    (∀ e, e ∈ matching (getEventsFilter q) db ↔
          stored db e ∧ statusSelected q e ∧ featuredSelected q e) ∧
    (∀ e', e' ∈ found →
           ∃ e, e ∈ matching (getEventsFilter q) db ∧
                e' = Event.without_fullDescription e) ∧
    (default 1%positive (q_page q) = 1%positive →
     (total ≤ Pos.to_nat (default 20%positive (q_limit q)))%nat →
     found ≡ₚ Event.without_fullDescription <$>
                matching (getEventsFilter q) db).
Proof.
  split; [reflexivity|].
  eexists. eexists. eexists. split; [reflexivity|].
  split; [reflexivity|]. split; [apply matching_getEvents|].
  unfold Event_find, Event_countDocuments. split.
  - intros e' He'. apply list_elem_of_fmap in He' as (e & -> & He).
    exists e. split; [|done].
    apply subseteq_take, subseteq_drop in He.
    by rewrite merge_sort_Permutation in He.
  - intros -> Hfit. simpl. rewrite drop_0, take_ge.
    + by rewrite merge_sort_Permutation.
    + by rewrite merge_sort_Permutation.
Qed.

(** C10 at the sample data: with [status=all] the listing shows the
    draft gala and the cancelled parade next to the published walk. *)
Lemma getEvents_filters_by_supplied_status_witness :
  (exec (getEvents (mkListQuery None None None (Some "all"))) Sample.db0).2 =
    mkResponse 200 true None []
      (EventsData
         [Sample.gala; Sample.parade;
          Event.without_fullDescription Sample.walk]
         1 20 3 1) ∧
  (exec (getEvents (mkListQuery None None None None)) Sample.db0).2 =
    mkResponse 200 true None []
      (EventsData [Event.without_fullDescription Sample.walk] 1 20 1 1) ∧
  ∃ found,
    found ≡ₚ Event.without_fullDescription <$>
               matching (getEventsFilter
                           (mkListQuery None None None (Some "all")))
                        Sample.db0.
Proof.
  split; [vm_compute; reflexivity|]. split; [vm_compute; reflexivity|].
  destruct (getEvents_filters_by_supplied_status Sample.db0
              (mkListQuery None None None (Some "all")))
    as (_ & found & total & pages & Hex & Htot & _ & _ & Hall).
  exists found. apply Hall; [reflexivity|].
  rewrite Htot. vm_compute. lia.
Defined.

(** * Further properties *)

(** ** The slug of an event *)

Lemma isSlugChar_not_dash c : Slug.isSlugChar c = true → Slug.isDash c = false.
Proof.
  destruct c as [[] [] [] [] [] [] [] []]; vm_compute; congruence.
Qed.

Lemma collapse_loose b s : looseFrom b (Slug.collapse b s) = true.
Proof.
  revert b. induction s as [|c t IH]; intros b; [reflexivity|].
  simpl. destruct (Slug.isSlugChar c) eqn:Hc.
  - simpl. rewrite Hc. apply IH.
  - destruct b; [apply IH|]. simpl. apply IH.
Qed.

Lemma loose_true_false s : looseFrom true s = true → looseFrom false s = true.
Proof.
  destruct s as [|c t]; [done|]. simpl.
  destruct (Slug.isSlugChar c); [done|].
  rewrite andb_false_r. discriminate.
Qed.

Lemma loose_stripLeading s :
  looseFrom false s = true → looseFrom true (Slug.stripLeading s) = true.
Proof.
  destruct s as [|c t]; [done|]. simpl.
  destruct (Slug.isDash c) eqn:Hd.
  - destruct (Slug.isSlugChar c) eqn:Hc.
    + apply isSlugChar_not_dash in Hc. congruence.
    + simpl. auto.
  - simpl. destruct (Slug.isSlugChar c); [done|]. discriminate.
Qed.

Lemma stripTrailing_wellFormedFrom s :
  (looseFrom false s = true →
   Slug.wellFormedFrom false (Slug.stripTrailing s) = true) ∧
  (looseFrom true s = true → s ≠ "" →
   Slug.wellFormedFrom true (Slug.stripTrailing s) = true).
Proof.
  induction s as [|c t [IH1 IH2]]; [split; [done|congruence]|].
  simpl. destruct (Slug.isSlugChar c) eqn:Hc.
  - rewrite (isSlugChar_not_dash c Hc). simpl. rewrite Hc. auto.
  - split; [|by destruct (Slug.isDash c)].
    destruct (Slug.isDash c) eqn:Hd; [|discriminate]. simpl.
    intros Ht. destruct (String.eqb_spec t ""); [reflexivity|].
    simpl. rewrite Hc, Hd. simpl. auto.
Qed.

Lemma wellFormedFrom_loose b s :
  Slug.wellFormedFrom b s = true → looseFrom b s = true.
Proof.
  revert b. induction s as [|c t IH]; intros b; [done|]. simpl.
  destruct (Slug.isSlugChar c); [apply IH|].
  intros H. apply andb_prop in H as [H1 H2]. rewrite H1. simpl. by apply IH.
Qed.

(** X1.  Whatever the title, the slug consists of lower-case letters and
    digits in groups separated by single dashes: no other character, no
    dash at either end, no two dashes in a row. *)
Theorem slugify_wellFormed title :
  Slug.wellFormed (Slug.slugify title) = true.
Proof.
  unfold Slug.slugify.
  pose proof (loose_stripLeading _
                (collapse_loose false (Js.toLowerCase title))) as Hl.
  destruct (Slug.stripLeading (Slug.collapse false (Js.toLowerCase title)))
    as [|c t] eqn:Hs; [reflexivity|].
  pose proof (proj1 (stripTrailing_wellFormedFrom (String c t))
                (loose_true_false _ Hl)) as Hw.
  simpl in Hl. destruct (Slug.isSlugChar c) eqn:Hc.
  - revert Hw. simpl. rewrite (isSlugChar_not_dash c Hc). simpl.
    rewrite Hc. simpl. by intros ->.
  - rewrite andb_false_r in Hl. discriminate.
Qed.

Lemma lowerChar_slug c :
  Slug.isSlugChar c || Slug.isDash c = true → Js.lowerChar c = c.
Proof.
  destruct c as [[] [] [] [] [] [] [] []]; vm_compute; congruence.
Qed.

Lemma toLowerCase_wellFormedFrom b s :
  Slug.wellFormedFrom b s = true → Js.toLowerCase s = s.
Proof.
  unfold Js.toLowerCase.
  revert b. induction s as [|c t IH]; intros b; [done|]. simpl.
  destruct (Slug.isSlugChar c) eqn:Hc.
  - intros H. rewrite lowerChar_slug by (by rewrite Hc).
    f_equal. by apply (IH false).
  - intros H. apply andb_prop in H as [H1 H2].
    apply andb_prop in H1 as [Hd _].
    rewrite lowerChar_slug by (rewrite Hd; apply orb_true_r).
    f_equal. by apply (IH true).
Qed.

Lemma collapse_wellFormedFrom b s :
  Slug.wellFormedFrom b s = true → Slug.collapse b s = s.
Proof.
  revert b. induction s as [|c t IH]; intros b; [done|]. simpl.
  destruct (Slug.isSlugChar c) eqn:Hc.
  - intros H. f_equal. by apply IH.
  - intros H. apply andb_prop in H as [H1 H2].
    apply andb_prop in H1 as [Hd Hb].
    destruct b; [discriminate|].
    unfold Slug.isDash in Hd. apply Ascii.eqb_eq in Hd. subst c.
    f_equal. by apply IH.
Qed.

Lemma stripTrailing_wellFormedFrom_id b s :
  Slug.wellFormedFrom b s = true → Slug.stripTrailing s = s.
Proof.
  revert b. induction s as [|c t IH]; intros b; [done|]. simpl.
  destruct (Slug.isSlugChar c) eqn:Hc.
  - rewrite (isSlugChar_not_dash c Hc). simpl. intros H. f_equal.
    by apply (IH false).
  - intros H. apply andb_prop in H as [H1 H2].
    destruct (String.eqb_spec t "") as [->|_]; [discriminate|].
    rewrite andb_false_r. f_equal. by apply (IH true).
Qed.

(** X2.  A string that already has the shape of a slug is its own slug;
    so the slug of a slug is that slug ([slugify] is idempotent). *)
Theorem slugify_fixed_point s :
  Slug.wellFormed s = true → Slug.slugify s = s.
Proof.
  intros Hw. destruct s as [|c t]; [reflexivity|].
  unfold Slug.wellFormed in Hw. apply andb_prop in Hw as [Hc Hw].
  unfold Slug.slugify.
  rewrite (toLowerCase_wellFormedFrom false _ Hw).
  rewrite (collapse_wellFormedFrom false _ Hw).
  unfold Slug.stripLeading. rewrite (isSlugChar_not_dash c Hc).
  by apply (stripTrailing_wellFormedFrom_id false).
Qed.

Lemma slugify_fixed_point_witness :
  Slug.slugify "pride-walk-2024" = "pride-walk-2024".
Proof. apply slugify_fixed_point. vm_compute. reflexivity. Defined.

Lemma toLowerCase_loose b s : looseFrom b s = true → Js.toLowerCase s = s.
Proof.
  unfold Js.toLowerCase.
  revert b. induction s as [|c t IH]; intros b; [done|]. simpl.
  destruct (Slug.isSlugChar c) eqn:Hc.
  - intros H. rewrite lowerChar_slug by (by rewrite Hc).
    f_equal. by apply (IH false).
  - intros H. apply andb_prop in H as [H1 H2].
    apply andb_prop in H1 as [Hd _].
    rewrite lowerChar_slug by (rewrite Hd; apply orb_true_r).
    f_equal. by apply (IH true).
Qed.

Lemma toLowerCase_slugify title :
  Js.toLowerCase (Slug.slugify title) = Slug.slugify title.
Proof.
  unfold Slug.slugify.
  pose proof (loose_true_false _
                (loose_stripLeading _
                   (collapse_loose false (Js.toLowerCase title)))) as Hl.
  apply (toLowerCase_loose false), wellFormedFrom_loose.
  by apply stripTrailing_wellFormedFrom.
Qed.

(** ** Creating an event *)

Arguments Event_create : simpl never.

Lemma slugTaken_iff s db :
  slugTaken s db = true ↔ ∃ id e, events db !! id = Some e ∧ Event.slug e = s.
Proof.
  unfold slugTaken. rewrite existsb_exists. split.
  - intros (e & Hin & He). apply String.eqb_eq in He.
    apply list_elem_of_In, stored_allEvents in Hin as [id Hid]. eauto.
  - intros (id & e & Hid & He). exists e. split.
    + apply list_elem_of_In, stored_allEvents. by exists id.
    + by apply String.eqb_eq.
Qed.

Lemma errorOf_nil {A} (r : (string * string) + A) :
  Validate.errorOf r = [] → ∃ a, r = inr a.
Proof. destruct r; [discriminate|eauto]. Qed.

Lemma errorsOf_nil d :
  ValidateEvent.errorsOf d = [] →
  (∃ raw, n_title d = Some raw ∧
          ValidateEvent.title (n_title d) = inr (Js.trim raw)) ∧
  (∃ date, ValidateEvent.date (n_date d) = inr date) ∧
  Event.maxAttendees_valid (default None (n_maxAttendees d)) = true.
Proof.
  unfold ValidateEvent.errorsOf. intros H.
  repeat (apply app_eq_nil in H as [? H]).
  split; [|split].
  - match goal with H : Validate.errorOf (ValidateEvent.title _) = [] |- _ =>
      apply errorOf_nil in H as [a Ha] end.
    revert Ha. unfold ValidateEvent.title, Validate.requiredString.
    destruct (n_title d) as [raw|]; [|discriminate]. simpl.
    destruct (String.eqb _ ""); [discriminate|].
    destruct (_ <? _)%nat; [discriminate|]. eauto.
  - match goal with H : Validate.errorOf (ValidateEvent.date _) = [] |- _ =>
      apply errorOf_nil in H as [a Ha] end. eauto.
  - match goal with H : ValidateEvent.maxAttendees _ = [] |- _ =>
      revert H end.
    unfold ValidateEvent.maxAttendees.
    destruct (n_maxAttendees d) as [m|]; [|done]. simpl.
    by destruct (Event.maxAttendees_valid m).
Qed.

(** The event that [Event.create] builds from a valid draft. *)
Lemma Event_create_valid d db raw :
  ValidateEvent.errorsOf d = [] →
  n_title d = Some raw →
  slugTaken (Slug.slugify (Js.trim raw)) db = false →
  ∃ e, Event_create d db =
         (mkDb (<[nextId db := e]> (events db)) (registrations db)
               (S (nextId db)), inr e) ∧
       Event._id e = nextId db ∧
       Event.title e = Js.trim raw ∧
       Event.slug e = Slug.slugify (Js.trim raw) ∧
       Event.currentAttendees e = default 0 (n_currentAttendees d) ∧
       Event.maxAttendees e = default None (n_maxAttendees d).
Proof.
  intros Hv Hraw Hfree.
  destruct (errorsOf_nil d Hv) as ((raw' & Hraw' & Ht) & (date & Hd) & _).
  rewrite Hraw in Hraw'. injection Hraw' as <-.
  unfold Event_create. rewrite Hv, Ht, Hd, Hfree.
  eexists. split; [reflexivity|]. simpl. auto.
Qed.

(** X3.  A draft that passes validation, with a title whose slug no stored
    event has, is stored under a fresh id and answered 201.  The stored
    title is the trimmed title and the slug is derived from it, whatever
    slug the body carried; [currentAttendees] is the value of the body when
    it has one, and 0 otherwise. *)
Theorem createEvent_accepted d db raw :
  ValidateEvent.errorsOf d = [] →
  n_title d = Some raw →
  slugTaken (Slug.slugify (Js.trim raw)) db = false →
  ∃ e, createEvent d db =
         (mkDb (<[nextId db := e]> (events db)) (registrations db)
               (S (nextId db)),
          mkResponse 201 true (Some "Event created successfully") []
            (EventData e)) ∧
       Event._id e = nextId db ∧
       Event.title e = Js.trim raw ∧
       Event.slug e = Slug.slugify (Js.trim raw) ∧
       Event.currentAttendees e = default 0 (n_currentAttendees d).
Proof.
  intros Hv Hraw Hfree.
  destruct (Event_create_valid d db raw Hv Hraw Hfree)
    as (e & He & ? & ? & ? & ? & _).
  exists e. unfold createEvent. rewrite He. auto.
Qed.

Lemma createEvent_accepted_witness :
  ∃ e, createEvent Catalogue.picnic emptyDb =
         (mkDb (<[nextId emptyDb := e]> (events emptyDb))
               (registrations emptyDb) (S (nextId emptyDb)),
          mkResponse 201 true (Some "Event created successfully") []
            (EventData e)) ∧
       Event._id e = nextId emptyDb ∧
       Event.title e = Js.trim "  Summer Picnic & BBQ!  " ∧
       Event.slug e = Slug.slugify (Js.trim "  Summer Picnic & BBQ!  ") ∧
       Event.currentAttendees e =
         default 0 (n_currentAttendees Catalogue.picnic).
Proof.
  apply (createEvent_accepted Catalogue.picnic emptyDb
           "  Summer Picnic & BBQ!  "); vm_compute; reflexivity.
Defined.

(** X4.  [createEvent] refuses without touching the store: a draft with
    validation errors is answered 400 "Validation failed" with those
    errors, and a valid draft whose title gives the slug of a stored event
    is answered 400 "An event with this title already exists". *)
Theorem createEvent_refused d db :
  (ValidateEvent.errorsOf d ≠ [] →
   createEvent d db =
     (db, mkResponse 400 false (Some "Validation failed")
            (ValidateEvent.errorsOf d) NoData)) ∧
  (∀ raw id e,
     ValidateEvent.errorsOf d = [] →
     n_title d = Some raw →
     events db !! id = Some e →
     Event.slug e = Slug.slugify (Js.trim raw) →
     createEvent d db =
       (db, failure 400 "An event with this title already exists")).
Proof.
  split.
  - intros Hv. unfold createEvent, Event_create.
    by destruct (ValidateEvent.errorsOf d) as [|err errs].
  - intros raw id e Hv Hraw Hid Hslug.
    destruct (errorsOf_nil d Hv) as ((raw' & Hraw' & Ht) & (date & Hd) & _).
    rewrite Hraw in Hraw'. injection Hraw' as <-.
    assert (slugTaken (Slug.slugify (Js.trim raw)) db = true) as Htaken
      by (apply slugTaken_iff; eauto).
    unfold createEvent, Event_create. by rewrite Hv, Ht, Hd, Htaken.
Qed.

Lemma createEvent_refused_witness :
  createEvent Catalogue.untitled emptyDb =
    (emptyDb, mkResponse 400 false (Some "Validation failed")
                (ValidateEvent.errorsOf Catalogue.untitled) NoData) ∧
  createEvent Catalogue.picnicAgain (createEvent Catalogue.picnic emptyDb).1 =
    ((createEvent Catalogue.picnic emptyDb).1,
     failure 400 "An event with this title already exists").
Proof.
  split.
  - apply (proj1 (createEvent_refused Catalogue.untitled emptyDb)).
    vm_compute. discriminate.
  - apply (proj2 (createEvent_refused Catalogue.picnicAgain
                    (createEvent Catalogue.picnic emptyDb).1)
             "summer picnic BBQ" 0%nat
             (Event.mk 0 "Summer Picnic & BBQ!" "summer-picnic-bbq" None
                "2024-08-10" 0 true (Some 40) 0 false EventStatus.published
                true)); vm_compute; reflexivity.
Defined.

(** ** Deleting an event *)

Lemma deleted_registrations id db r :
  In r (registrations (EventRegistration_deleteMany id db)) ↔
  In r (registrations db) ∧ EventRegistration.event r ≠ id.
Proof.
  unfold EventRegistration_deleteMany. simpl. rewrite filter_In.
  rewrite negb_true_iff, Nat.eqb_neq. tauto.
Qed.

Lemma deleteEvent_found id e db :
  events db !! id = Some e →
  deleteEvent id db =
    (EventRegistration_deleteMany id
       (mkDb (delete id (events db)) (registrations db) (nextId db)),
     mkReply 200 true (Some "Event deleted successfully") (Some id)).
Proof.
  intros He. unfold deleteEvent, Event_findByIdAndDelete. by rewrite He.
Qed.

(** X5.  Deleting a stored event answers 200 with its id, removes the
    event and every registration that refers to it, and leaves the other
    events and the other registrations as they were. *)
Theorem deleteEvent_cascades id e db :
  events db !! id = Some e →
  (deleteEvent id db).2 =
    mkReply 200 true (Some "Event deleted successfully") (Some id) ∧
  events (deleteEvent id db).1 !! id = None ∧
  (∀ j, j ≠ id → events (deleteEvent id db).1 !! j = events db !! j) ∧
  (∀ r, In r (registrations (deleteEvent id db).1) ↔
        In r (registrations db) ∧ EventRegistration.event r ≠ id) ∧
  nextId (deleteEvent id db).1 = nextId db.
Proof.
  intros He. unfold deleteEvent, Event_findByIdAndDelete. rewrite He. simpl.
  split; [reflexivity|]. split; [apply lookup_delete_eq|].
  split; [intros j Hj; by apply lookup_delete_ne|].
  split; [|reflexivity]. intros r.
  apply (deleted_registrations id
           (mkDb (delete id (events db)) (registrations db) (nextId db))).
Qed.

Lemma deleteEvent_cascades_witness :
  (deleteEvent 1 Sample.afterBob).2 =
    mkReply 200 true (Some "Event deleted successfully") (Some 1%nat) ∧
  events (deleteEvent 1 Sample.afterBob).1 !! 1%nat = None ∧
  (∀ j, j ≠ 1%nat →
        events (deleteEvent 1 Sample.afterBob).1 !! j =
          events Sample.afterBob !! j) ∧
  (∀ r, In r (registrations (deleteEvent 1 Sample.afterBob).1) ↔
        In r (registrations Sample.afterBob) ∧
        EventRegistration.event r ≠ 1%nat) ∧
  nextId (deleteEvent 1 Sample.afterBob).1 = nextId Sample.afterBob.
Proof.
  apply (deleteEvent_cascades 1 Scenario.walkFull Sample.afterBob).
  vm_compute. reflexivity.
Defined.

(** X6.  Deleting an id that no event has is answered 404 and deletes
    nothing: registrations that refer to that id stay in the store. *)
Theorem deleteEvent_missing id db :
  events db !! id = None →
  deleteEvent id db = (db, mkReply 404 false (Some "Event not found") None).
Proof.
  intros He. unfold deleteEvent, Event_findByIdAndDelete. rewrite He.
  rewrite delete_id by done. by destruct db.
Qed.

Lemma deleteEvent_missing_witness :
  deleteEvent 7 Sample.afterBob =
    (Sample.afterBob, mkReply 404 false (Some "Event not found") None).
Proof. apply deleteEvent_missing. vm_compute. reflexivity. Defined.

Lemma register_missing_event id body rnd db :
  events db !! id = None →
  exec (registerForEvent id body rnd) db = (db, failure 404 "Event not found").
Proof. intros He. unfold registerForEvent. simpl. by rewrite He. Qed.

Lemma findById_unique rid r (l : list EventRegistration.t) :
  NoDup (map EventRegistration._id l) →
  List.find (λ x, Nat.eqb (EventRegistration._id x) rid) l = Some r →
  ∀ r', In r' l → EventRegistration._id r' = rid → r' = r.
Proof.
  intros Hnd Hf r' Hin Hid. induction l as [|x l IH]; [done|].
  simpl in Hnd. apply NoDup_cons in Hnd as [Hx Hnd]. simpl in Hf.
  destruct (Nat.eqb_spec (EventRegistration._id x) rid) as [Hxr|Hxr].
  - injection Hf as <-. destruct Hin as [->|Hin]; [done|].
    exfalso. apply Hx. apply list_elem_of_fmap. exists r'.
    split; [congruence|]. by apply list_elem_of_In.
  - destruct Hin as [->|Hin]; [congruence|]. by apply IH.
Qed.

(** X7.  Once an event has been deleted, a registration request for it is
    answered 404 "Event not found", and so is the cancellation of any
    registration that belonged to it; neither changes the store. *)
Theorem deleted_event_is_gone id e db :
  events db !! id = Some e →
  idsFresh db →
  (∀ body rnd,
     exec (registerForEvent id body rnd) (deleteEvent id db).1 =
       ((deleteEvent id db).1, failure 404 "Event not found")) ∧
  (∀ rid r,
     EventRegistration_findById rid db = Some r →
     EventRegistration.event r = id →
     exec (cancelRegistration rid) (deleteEvent id db).1 =
       ((deleteEvent id db).1, failure 404 "Registration not found")).
Proof.
  intros He [Hnd _]. rewrite (deleteEvent_found id e db He). cbn [fst].
  set (db' := EventRegistration_deleteMany id
                (mkDb (delete id (events db)) (registrations db) (nextId db))).
  assert (∀ r, In r (registrations db') ↔
               In r (registrations db) ∧ EventRegistration.event r ≠ id)
    as Hregs
    by (intros r;
        apply (deleted_registrations id
                 (mkDb (delete id (events db)) (registrations db)
                       (nextId db)))).
  split.
  - intros body rnd. apply register_missing_event. apply lookup_delete_eq.
  - intros rid r Hf Hr. apply cancel_missing.
    destruct (EventRegistration_findById rid db') as [r'|] eqn:Hf';
      [exfalso|reflexivity].
    pose proof (findById_id _ _ _ Hf') as Hid'.
    unfold EventRegistration_findById in Hf'.
    apply find_some in Hf' as [Hin' _].
    apply Hregs in Hin' as [Hin' Hne].
    apply Hne. rewrite <- Hr. f_equal.
    by apply (findById_unique rid r (registrations db)).
Qed.

Lemma deleted_event_is_gone_witness :
  (∀ body rnd,
     exec (registerForEvent 1 body rnd) (deleteEvent 1 Sample.afterBob).1 =
       ((deleteEvent 1 Sample.afterBob).1, failure 404 "Event not found")) ∧
  (∀ rid r,
     EventRegistration_findById rid Sample.afterBob = Some r →
     EventRegistration.event r = 1%nat →
     exec (cancelRegistration rid) (deleteEvent 1 Sample.afterBob).1 =
       ((deleteEvent 1 Sample.afterBob).1,
        failure 404 "Registration not found")).
Proof.
  apply (deleted_event_is_gone 1 Scenario.walkFull Sample.afterBob).
  - vm_compute. reflexivity.
  - split.
    + vm_compute. apply NoDup_cons. split.
      * intros H. apply list_elem_of_singleton in H. discriminate.
      * apply NoDup_singleton.
    + vm_compute. repeat constructor.
Defined.

(** ** Invariants of the two stores under all the write requests *)

Lemma create_ticket d rnd db db' r :
  EventRegistration_create d rnd db = (db', inr r) →
  db' = inserted r db ∧
  EventRegistration._id r = nextId db ∧
  EventRegistration.event r = EventRegistration.d_event d ∧
  EventRegistration.ticketId r =
    generateTicketId (events db !! EventRegistration.d_event d) rnd ∧
  ticketTaken (EventRegistration.ticketId r) db = false.
Proof.
  unfold EventRegistration_create.
  destruct (Validate.firstName _) as [e1|fn]; [discriminate|].
  destruct (Validate.lastName _) as [e2|ln]; [discriminate|].
  destruct (Validate.email _) as [e3|em]; [discriminate|].
  destruct (Validate.phone _) as [e4|ph]; [discriminate|].
  destruct (Validate.accessibilityNeeds _) as [e5|ac]; [discriminate|].
  destruct (ticketTaken _ db) eqn:Ht; [discriminate|].
  intros [= <- <-]. simpl. auto.
Qed.

Lemma create_error d rnd db db' e :
  EventRegistration_create d rnd db = (db', inl e) → db' = db.
Proof.
  unfold EventRegistration_create.
  destruct (Validate.firstName _); [by intros [= <- _]|].
  destruct (Validate.lastName _); [by intros [= <- _]|].
  destruct (Validate.email _); [by intros [= <- _]|].
  destruct (Validate.phone _); [by intros [= <- _]|].
  destruct (Validate.accessibilityNeeds _); [by intros [= <- _]|].
  destruct (ticketTaken _ db); [by intros [= <- _]|discriminate].
Qed.

(** What a registration request does to the store. *)
Lemma register_store id body rnd db :
  (exec (registerForEvent id body rnd) db).1 = db ∨
  ∃ r, is_Some (events db !! id) ∧
       EventRegistration.event r = id ∧
       EventRegistration._id r = nextId db ∧
       EventRegistration.ticketId r =
         generateTicketId (events db !! id) rnd ∧
       ticketTaken (EventRegistration.ticketId r) db = false ∧
       ((exec (registerForEvent id body rnd) db).1 = inserted r db ∨
        (exec (registerForEvent id body rnd) db).1 =
          Event_incCurrentAttendees id 1 (inserted r db)).
Proof.
  unfold registerForEvent. simpl.
  destruct (events db !! id) as [event|] eqn:Hev; simpl; [|by left].
  destruct (negb (EventStatus.eqb _ _)); simpl; [by left|].
  destruct (negb (Event.registrationOpen event)); simpl; [by left|].
  destruct (EventRegistration_findOne id (email body) db); simpl; [by left|].
  destruct (_ && _); simpl;
    match goal with |- context [EventRegistration_create ?d rnd db] =>
      destruct (EventRegistration_create d rnd db) as [db1 [e|r]] eqn:Hc
    end; simpl.
  - left. by apply create_error in Hc.
  - right. apply create_ticket in Hc as (-> & ? & ? & Ht & ?).
    simpl in Ht. rewrite Hev in Ht. exists r. eauto 10.
  - left. by apply create_error in Hc.
  - right. apply create_ticket in Hc as (-> & ? & ? & Ht & ?).
    simpl in Ht. rewrite Hev in Ht. exists r. eauto 10.
Qed.

Lemma ticketTaken_false t db :
  ticketTaken t db = false →
  t ∉ map EventRegistration.ticketId (registrations db).
Proof.
  unfold ticketTaken. intros Hf Hin.
  apply list_elem_of_fmap in Hin as (r & -> & Hin).
  apply list_elem_of_In in Hin.
  assert (existsb (λ r', String.eqb (EventRegistration.ticketId r')
                            (EventRegistration.ticketId r))
            (registrations db) = true) as Ht.
  { apply existsb_exists. exists r. split; [done|]. apply String.eqb_refl. }
  congruence.
Qed.

Lemma consistent_inserted r db :
  consistent db →
  EventRegistration._id r = nextId db →
  is_Some (events db !! EventRegistration.event r) →
  ticketTaken (EventRegistration.ticketId r) db = false →
  consistent (inserted r db).
Proof.
  intros (Hid & Hsl & Hsc & Hfr & Htk & Hor) Hr Hev Ht.
  split; [|split; [|split; [|split; [|split]]]].
  - intros j e He. destruct (Hid j e He). simpl. split; [done|lia].
  - exact Hsl.
  - exact Hsc.
  - by apply idsFresh_inserted.
  - unfold ticketsUnique. simpl. rewrite map_app. simpl.
    apply NoDup_app. split; [exact Htk|]. split; [|apply NoDup_singleton].
    intros t Hin Hin'. apply list_elem_of_singleton in Hin'. subst t.
    by apply (ticketTaken_false _ db Ht).
  - unfold noOrphans. simpl. apply Forall_app. split; [exact Hor|].
    by apply Forall_singleton.
Qed.

(** A change of stored events that keeps their ids, slugs and keys, and
    the validity of [maxAttendees]. *)
Lemma consistent_events db (evs : gmap ObjectId Event.t) :
  consistent db →
  (∀ j e', evs !! j = Some e' →
     ∃ e, events db !! j = Some e ∧ Event._id e' = Event._id e ∧
          Event.slug e' = Event.slug e ∧
          Event.maxAttendees_valid (Event.maxAttendees e') = true) →
  (∀ j, is_Some (events db !! j) → is_Some (evs !! j)) →
  consistent (mkDb evs (registrations db) (nextId db)).
Proof.
  intros (Hid & Hsl & Hsc & Hfr & Htk & Hor) Hback Hforth.
  split; [|split; [|split; [|split; [|split]]]].
  - intros j e' He'. destruct (Hback j e' He') as (e & He & Hi & _).
    destruct (Hid j e He). simpl. split; [congruence|done].
  - intros i j e1 e2 H1 H2 Hs.
    destruct (Hback i e1 H1) as (a & Ha & _ & Hsa & _).
    destruct (Hback j e2 H2) as (b & Hb & _ & Hsb & _).
    apply (Hsl i j a b Ha Hb). congruence.
  - intros j e' He'. by destruct (Hback j e' He') as (e & _ & _ & _ & Hv).
  - exact Hfr.
  - exact Htk.
  - unfold noOrphans. simpl. eapply Forall_impl; [exact Hor|].
    intros r. apply Hforth.
Qed.

Lemma consistent_inc id d db :
  consistent db → consistent (Event_incCurrentAttendees id d db).
Proof.
  intros Hc. apply (consistent_events db); [done| |].
  - intros j e'. rewrite lookup_alter_Some.
    intros [(-> & e & He & ->)|[_ He]].
    + exists e. repeat split; try done.
      destruct Hc as (_ & _ & Hsc & _). exact (Hsc j e He).
    + exists e'. repeat split; try done.
      destruct Hc as (_ & _ & Hsc & _). exact (Hsc j e' He).
  - intros j. by rewrite lookup_alter_is_Some.
Qed.

Lemma consistent_save r db :
  consistent db → consistent (EventRegistration_save r db).
Proof.
  intros (Hid & Hsl & Hsc & Hfr & Htk & Hor).
  split; [|split; [|split; [|split; [|split]]]]; try done.
  - by apply idsFresh_save.
  - unfold ticketsUnique, EventRegistration_save. simpl. rewrite map_map.
    erewrite map_ext; [exact Htk|]. intros x. simpl.
    by destruct (Nat.eqb _ _).
  - unfold noOrphans, EventRegistration_save. simpl.
    apply Forall_fmap. eapply Forall_impl; [exact Hor|].
    intros x Hx. simpl. by destruct (Nat.eqb _ _).
Qed.

Lemma consistent_patched id p e db :
  consistent db →
  events db !! id = Some e →
  validatePatch p = [] →
  consistent (mkDb (<[id := applyPatch p e]> (events db)) (registrations db)
                   (nextId db)).
Proof.
  intros Hc He Hv. apply (consistent_events db); [done| |].
  - intros j e'. rewrite lookup_insert_Some.
    intros [[-> <-]|[_ He']].
    + exists e. repeat split; try done. simpl.
      destruct (p_maxAttendees p) as [m|] eqn:Hm; simpl.
      * by apply (validatePatch_maxAttendees p Hv).
      * destruct Hc as (_ & _ & Hsc & _). exact (Hsc j e He).
    + exists e'. repeat split; try done.
      destruct Hc as (_ & _ & Hsc & _). exact (Hsc j e' He').
  - intros j Hj. rewrite lookup_insert_is_Some.
    destruct (decide (id = j)); auto.
Qed.

Lemma handle_consistent rq db :
  consistent db → consistent (exec (handle rq) db).1.
Proof.
  intros Hc. destruct rq as [id body rnd|rid|id p|q]; simpl handle.
  - destruct (register_store id body rnd db)
      as [->|(r & Hev & Hr & Hid & _ & Ht & [->| ->])]; [done| |].
    + apply consistent_inserted; try done. by rewrite Hr.
    + apply consistent_inc, consistent_inserted; try done. by rewrite Hr.
  - destruct (EventRegistration_findById rid db) as [r|] eqn:Hf.
    + rewrite (cancel_found db rid r Hf). simpl.
      by apply consistent_inc, consistent_save.
    + by rewrite (cancel_missing db rid Hf).
  - destruct (validatePatch p) as [|err errs] eqn:Hv.
    + destruct (events db !! id) as [e|] eqn:He.
      * rewrite (updateEvent_valid db id p e He Hv). simpl.
        by apply consistent_patched.
      * unfold updateEvent. simpl. unfold Event_findByIdAndUpdate.
        by rewrite Hv, He.
    + rewrite updateEvent_invalid by (rewrite Hv; discriminate). done.
  - done.
Qed.

Lemma createEvent_store d db :
  (createEvent d db).1 = db ∨
  ∃ e, (createEvent d db).1 =
         mkDb (<[nextId db := e]> (events db)) (registrations db)
              (S (nextId db)) ∧
       Event._id e = nextId db ∧
       slugTaken (Event.slug e) db = false ∧
       Event.maxAttendees_valid (Event.maxAttendees e) = true.
Proof.
  destruct (decide (ValidateEvent.errorsOf d = [])) as [Hv|Hv].
  - destruct (errorsOf_nil d Hv) as ((raw & Hraw & Ht) & (date & Hd) & Hmax).
    destruct (slugTaken (Slug.slugify (Js.trim raw)) db) eqn:Htaken.
    + left. unfold createEvent, Event_create. by rewrite Hv, Ht, Hd, Htaken.
    + right.
      destruct (Event_create_valid d db raw Hv Hraw Htaken)
        as (e & He & Hid & _ & Hslug & _ & Hm).
      exists e. unfold createEvent. rewrite He. simpl.
      split; [done|]. split; [done|]. split; [by rewrite Hslug|].
      by rewrite Hm.
  - left. unfold createEvent, Event_create.
    by destruct (ValidateEvent.errorsOf d).
Qed.

Lemma createEvent_consistent d db :
  consistent db → consistent (createEvent d db).1.
Proof.
  intros Hc.
  destruct (createEvent_store d db) as [->|(e & -> & Hid & Hfree & Hm)];
    [done|].
  destruct Hc as (Hids & Hsl & Hsc & [Hnd Hlt] & Htk & Hor).
  split; [|split; [|split; [|split; [|split]]]].
  - intros j e'. simpl. rewrite lookup_insert_Some.
    intros [[<- <-]|[_ He']]; [split; [done|lia]|].
    destruct (Hids j e' He'). split; [done|lia].
  - intros i j e1 e2. simpl. rewrite !lookup_insert_Some.
    intros [[<- <-]|[Hi H1]] [[<- <-]|[Hj H2]] Hs; try done.
    + exfalso. assert (slugTaken (Event.slug e) db = true) as Ht
        by (apply slugTaken_iff; eauto).
      congruence.
    + exfalso. assert (slugTaken (Event.slug e) db = true) as Ht
        by (apply slugTaken_iff; eauto).
      congruence.
    + by apply (Hsl i j e1 e2).
  - intros j e'. simpl. rewrite lookup_insert_Some.
    intros [[_ <-]|[_ He']]; [done|by apply (Hsc j)].
  - split; [exact Hnd|]. simpl.
    eapply Forall_impl; [exact Hlt|]. simpl. intros. lia.
  - exact Htk.
  - unfold noOrphans. simpl. eapply Forall_impl; [exact Hor|].
    intros r Hr. simpl in Hr. rewrite lookup_insert_is_Some.
    destruct (decide (nextId db = EventRegistration.event r)); auto.
Qed.

Lemma NoDup_map_filter {A B} (f : A → B) (p : A → bool) (l : list A) :
  NoDup (map f l) → NoDup (map f (List.filter p l)).
Proof.
  induction l as [|x l IH]; [done|]. simpl. intros Hnd.
  apply NoDup_cons in Hnd as [Hx Hnd]. destruct (p x); [|by apply IH].
  simpl. apply NoDup_cons. split; [|by apply IH].
  intros Hin. apply Hx. apply list_elem_of_fmap in Hin as (y & -> & Hy).
  apply list_elem_of_fmap. exists y. split; [done|].
  apply list_elem_of_In. apply list_elem_of_In, filter_In in Hy. tauto.
Qed.

Lemma deleteEvent_consistent id db :
  consistent db → consistent (deleteEvent id db).1.
Proof.
  intros Hc. destruct (events db !! id) as [e|] eqn:He.
  - rewrite (deleteEvent_found id e db He). simpl.
    destruct Hc as (Hids & Hsl & Hsc & [Hnd Hlt] & Htk & Hor).
    assert (∀ j e', delete id (events db) !! j = Some e' →
                    events db !! j = Some e') as Hback.
    { intros j e'. rewrite lookup_delete_Some. tauto. }
    split; [|split; [|split; [|split; [|split]]]].
    + intros j e' Hj. by apply Hids, Hback.
    + intros i j e1 e2 H1 H2. apply (Hsl i j e1 e2); by apply Hback.
    + intros j e' Hj. by apply (Hsc j), Hback.
    + split; simpl.
      * by apply NoDup_map_filter.
      * rewrite Forall_forall in *. intros r Hr.
        apply Hlt. apply list_elem_of_In.
        apply list_elem_of_In, filter_In in Hr. tauto.
    + unfold ticketsUnique. simpl. by apply NoDup_map_filter.
    + unfold noOrphans in *. simpl. rewrite Forall_forall in *. intros r Hr.
      apply list_elem_of_In, filter_In in Hr as [Hr Hne].
      apply negb_true_iff, Nat.eqb_neq in Hne.
      rewrite lookup_delete_ne by done. apply Hor. by apply list_elem_of_In.
  - unfold deleteEvent, Event_findByIdAndDelete. rewrite He.
    rewrite delete_id by done. by destruct db.
Qed.

Lemma apply_consistent rq db : consistent db → consistent (apply rq db).
Proof.
  destruct rq as [rq|d|id]; simpl.
  - apply handle_consistent.
  - apply createEvent_consistent.
  - apply deleteEvent_consistent.
Qed.

Lemma run_consistent reqs db : consistent db → consistent (run reqs db).
Proof.
  revert db. induction reqs as [|rq reqs IH]; intros db Hc; [done|].
  simpl. by apply IH, apply_consistent.
Qed.

Lemma emptyDb_consistent : consistent emptyDb.
Proof.
  split; [|split; [|split; [|split; [|split]]]].
  - intros id e. simpl. by rewrite lookup_empty.
  - intros i j e1 e2. simpl. by rewrite lookup_empty.
  - intros id e. simpl. by rewrite lookup_empty.
  - split; simpl; constructor.
  - constructor.
  - constructor.
Qed.

(** X8.  In every state that create, update, delete, register and cancel
    requests, served one after the other, reach from the empty store, each
    registration refers to an event that is stored: the cascade of
    [deleteEvent] leaves no orphan. *)
Theorem no_orphaned_registrations reqs : noOrphans (run reqs emptyDb).
Proof.
  by destruct (run_consistent reqs emptyDb emptyDb_consistent)
    as (_ & _ & _ & _ & _ & Hor).
Qed.

(** X9.  In every such state no two events have the same slug. *)
Theorem slugs_stay_unique reqs i j e1 e2 :
  events (run reqs emptyDb) !! i = Some e1 →
  events (run reqs emptyDb) !! j = Some e2 →
  Event.slug e1 = Event.slug e2 → i = j.
Proof.
  destruct (run_consistent reqs emptyDb emptyDb_consistent)
    as (_ & Hsl & _). apply Hsl.
Qed.

Lemma slugs_stay_unique_witness : 0%nat = 0%nat.
Proof.
  apply (slugs_stay_unique Catalogue.opening 0 0 Catalogue.picnicWithAlice
           Catalogue.picnicWithAlice); vm_compute; reflexivity.
Defined.

(** X10.  In every such state no two registrations have the same ticket. *)
Theorem tickets_stay_unique reqs : ticketsUnique (run reqs emptyDb).
Proof.
  by destruct (run_consistent reqs emptyDb emptyDb_consistent)
    as (_ & _ & _ & _ & Htk & _).
Qed.



(** ** Fetching one event *)

Lemma findOneBySlug_created e s db :
  Event.slug e = s →
  Js.toLowerCase s = s →
  slugTaken s db = false →
  Event_findOneBySlug s
    (mkDb (<[nextId db := e]> (events db)) (registrations db)
          (S (nextId db))) = Some e.
Proof.
  intros Hs Hw Hfree. unfold Event_findOneBySlug. rewrite Hw.
  destruct (List.find _ _) as [x|] eqn:Hf.
  - apply find_some in Hf as [Hin Hx]. apply String.eqb_eq in Hx.
    apply list_elem_of_In, stored_allEvents in Hin as [j Hj].
    simpl in Hj. apply lookup_insert_Some in Hj as [[_ <-]|[_ Hj]]; [done|].
    assert (slugTaken s db = true) by (apply slugTaken_iff; eauto).
    congruence.
  - exfalso.
    assert (In e (allEvents (mkDb (<[nextId db := e]> (events db))
                               (registrations db) (S (nextId db))))) as Hin.
    { apply list_elem_of_In, stored_allEvents. exists (nextId db). simpl.
      apply lookup_insert_eq. }
    pose proof (find_none _ _ Hf e Hin) as Hno. simpl in Hno.
    rewrite Hs, String.eqb_refl in Hno. discriminate.
Qed.

(** X12.  An event that has just been created is fetched by its slug,
    unless that slug reads as an ObjectId (24 hexadecimal digits): such a
    parameter is looked up as an id only, and the answer is the event
    stored under that id, or 404. *)
Theorem created_event_fetched_by_slug d db raw :
  ValidateEvent.errorsOf d = [] →
  n_title d = Some raw →
  slugTaken (Slug.slugify (Js.trim raw)) db = false →
  ∃ e, data (createEvent d db).2 = EventData e ∧
       Event.slug e = Slug.slugify (Js.trim raw) ∧
       (isObjectIdString (Event.slug e) = false →
        getEventById (Event.slug e) (createEvent d db).1 =
          mkResponse 200 true None [] (EventData e)) ∧
       (isObjectIdString (Event.slug e) = true →
        getEventById (Event.slug e) (createEvent d db).1 =
          match events (createEvent d db).1
                  !! objectIdOfString (Event.slug e) with
          | Some x => mkResponse 200 true None [] (EventData x)
          | None => failure 404 "Event not found"
          end).
Proof.
  intros Hv Hraw Hfree.
  destruct (Event_create_valid d db raw Hv Hraw Hfree)
    as (e & He & _ & _ & Hslug & _).
  exists e. unfold createEvent. rewrite He. simpl.
  split; [done|]. split; [done|].
  unfold getEventById. split; intros ->; [|done].
  rewrite (findOneBySlug_created e (Event.slug e) db); try done.
  - rewrite Hslug. apply toLowerCase_slugify.
  - by rewrite Hslug.
Qed.

Lemma created_event_fetched_by_slug_witness :
  (∃ e, data (createEvent Catalogue.picnic emptyDb).2 = EventData e ∧
        Event.slug e = Slug.slugify (Js.trim "  Summer Picnic & BBQ!  ") ∧
        (isObjectIdString (Event.slug e) = false →
         getEventById (Event.slug e) (createEvent Catalogue.picnic emptyDb).1 =
           mkResponse 200 true None [] (EventData e)) ∧
        (isObjectIdString (Event.slug e) = true →
         getEventById (Event.slug e) (createEvent Catalogue.picnic emptyDb).1 =
           match events (createEvent Catalogue.picnic emptyDb).1
                   !! objectIdOfString (Event.slug e) with
           | Some x => mkResponse 200 true None [] (EventData x)
           | None => failure 404 "Event not found"
           end)) ∧
  statusCode (createEvent Catalogue.hexTitle emptyDb).2 = 201%nat ∧
  getEventById "00000000000000000000002a"
    (createEvent Catalogue.hexTitle emptyDb).1 =
    failure 404 "Event not found".
Proof.
  split; [|split; vm_compute; reflexivity].
  apply (created_event_fetched_by_slug Catalogue.picnic emptyDb
           "  Summer Picnic & BBQ!  "); vm_compute; reflexivity.
Defined.

(** ** Pagination *)

Section Pagination.

Context {A : Type}.
Variable l : list A.
Variable limit : positive.

Lemma skipOf_pageNumber k :
  skipOf (Pos.of_nat (S k)) limit = (k * Pos.to_nat limit)%nat.
Proof. unfold skipOf. rewrite Nat2Pos.id by done. f_equal. lia. Qed.

Lemma pageCount_covers total :
  (total ≤ pageCount total limit * Pos.to_nat limit)%nat.
Proof.
  unfold pageCount. pose proof (Pos2Nat.is_pos limit) as Hpos.
  pose proof (Nat.div_mod_eq (total + Pos.to_nat limit - 1) (Pos.to_nat limit)).
  pose proof (Nat.mod_upper_bound (total + Pos.to_nat limit - 1)
                (Pos.to_nat limit)).
  nia.
Qed.

Lemma chunks_take n :
  List.concat (map (λ k, take (Pos.to_nat limit) (drop (k * Pos.to_nat limit) l))
              (seq 0 n)) =
  take (n * Pos.to_nat limit) l.
Proof.
  induction n as [|n IH]; [reflexivity|].
  rewrite seq_S, map_app, concat_app, IH. simpl. rewrite app_nil_r.
  rewrite take_take_drop. f_equal. lia.
Qed.

(** The pages [1 .. pageCount], one after the other, give the whole list. *)
Lemma pages_cover :
  List.concat (map (λ p, take (Pos.to_nat limit) (drop (skipOf p limit) l))
              (pageNumbers (pageCount (List.length l) limit))) = l.
Proof.
  unfold pageNumbers. rewrite map_map.
  erewrite map_ext; [|intros k; by rewrite skipOf_pageNumber].
  rewrite chunks_take. apply take_ge, pageCount_covers.
Qed.

Lemma page_bounded p :
  (List.length (take (Pos.to_nat limit) (drop (skipOf p limit) l))
   ≤ Pos.to_nat limit)%nat.
Proof. rewrite length_take. lia. Qed.

Lemma page_past_the_end p :
  (pageCount (List.length l) limit < Pos.to_nat p)%nat →
  take (Pos.to_nat limit) (drop (skipOf p limit) l) = [].
Proof.
  intros Hp. rewrite drop_ge; [apply take_nil|].
  pose proof (pageCount_covers (List.length l)). unfold skipOf. nia.
Qed.

End Pagination.

Lemma getEvents_listed db q :
  listedEvents (exec (getEvents q) db).2 =
    take (Pos.to_nat (default 20%positive (q_limit q)))
      (drop (skipOf (default 1%positive (q_page q))
                    (default 20%positive (q_limit q)))
         (Event.without_fullDescription <$>
            sortedEvents (getEventsFilter q) db)).
Proof.
  simpl. unfold listedEvents. simpl. unfold Event_find, sortedEvents, skipOf.
  by rewrite fmap_take, fmap_drop.
Qed.

Lemma sortedEvents_length f db :
  List.length (sortedEvents f db) = Event_countDocuments f db.
Proof.
  unfold sortedEvents, Event_countDocuments.
  apply Permutation_length, merge_sort_Permutation.
Qed.

(** X13.  The pages of the public listing are the consecutive slices of
    one sorted list of the selected events: no page has more than [limit]
    events, the pages 1 to [pages] put one after the other list every
    selected event exactly as often as it is stored, and a page after the
    last one is empty.  The sort of [Event_find] takes events with the same
    [featured] and [date] in one fixed order; the second part rests on
    that, the first and the third do not. *)
Theorem getEvents_pages_cover db limit featured status :
  let q p := mkListQuery (Some p) limit featured status in
  let total := Event_countDocuments (getEventsFilter (q 1%positive)) db in
  let pages := pageCount total (default 20%positive limit) in
  (∀ p, (List.length (listedEvents (exec (getEvents (q p)) db).2)
         ≤ Pos.to_nat (default 20%positive limit))%nat) ∧
  List.concat (map (λ p, listedEvents (exec (getEvents (q p)) db).2)
              (pageNumbers pages)) ≡ₚ
    Event.without_fullDescription <$>
      matching (getEventsFilter (q 1%positive)) db ∧
  (∀ p, (pages < Pos.to_nat p)%nat →
        listedEvents (exec (getEvents (q p)) db).2 = []).
Proof.
  intros q total pages.
  assert (∀ p, listedEvents (exec (getEvents (q p)) db).2 =
               take (Pos.to_nat (default 20%positive limit))
                 (drop (skipOf p (default 20%positive limit))
                    (Event.without_fullDescription <$>
                       sortedEvents (getEventsFilter (q 1%positive)) db)))
    as Hlisted by (intros p; rewrite getEvents_listed; reflexivity).
  assert (List.length (Event.without_fullDescription <$>
                         sortedEvents (getEventsFilter (q 1%positive)) db)
          = total) as Hlen
    by (rewrite length_fmap; apply sortedEvents_length).
  split; [|split].
  - intros p. rewrite Hlisted. apply page_bounded.
  - erewrite map_ext; [|intros p; apply Hlisted].
    unfold pages. rewrite <- Hlen, pages_cover.
    unfold sortedEvents. by rewrite merge_sort_Permutation.
  - intros p Hp. rewrite Hlisted. apply page_past_the_end.
    by rewrite Hlen.
Qed.

Example getEvents_pages_of_two :
  List.concat (map (λ p, listedEvents
                      (exec (getEvents (mkListQuery (Some p) (Some 2%positive)
                                          None (Some "all"))) Sample.db0).2)
              [1%positive; 2%positive]) =
    [Sample.gala; Sample.parade; Event.without_fullDescription Sample.walk].
Proof. vm_compute. reflexivity. Qed.

(** *** Featured events first *)

Global Instance sortKeyLe_total : Total (λ a b, Is_true (sortKeyLe a b)).
Proof.
  intros a b. unfold sortKeyLe.
  destruct (Event.featured a), (Event.featured b); simpl;
    try (by left); try (by right);
    destruct (String.leb_total (Event.date a) (Event.date b)) as [->| ->];
    (by left) || (by right).
Qed.

Global Instance featuredFirst_trans : Transitive featuredFirst.
Proof. unfold featuredFirst. intros a b c Hab Hbc Hc. auto. Qed.

Lemma sortKeyLe_featuredFirst a b :
  Is_true (sortKeyLe a b) → featuredFirst a b.
Proof.
  unfold sortKeyLe, featuredFirst.
  destruct (Event.featured a), (Event.featured b); simpl; try done.
Qed.

Lemma Sorted_weaken {B} (R R' : relation B) (l : list B) :
  (∀ x y, R x y → R' x y) → Sorted R l → Sorted R' l.
Proof.
  intros Himp. induction 1 as [|x l Hs IH Hhd]; constructor; [done|].
  destruct Hhd; constructor. by apply Himp.
Qed.

Lemma StronglySorted_lookup {B} (R : relation B) (l : list B) i j a b :
  StronglySorted R l → (i < j)%nat →
  l !! i = Some a → l !! j = Some b → R a b.
Proof.
  intros Hs. revert i j. induction Hs as [|x l Hs IH Hall]; intros i j Hij Hi Hj.
  - by rewrite lookup_nil in Hi.
  - destruct j as [|j]; [lia|]. simpl in Hj. destruct i as [|i].
    + simpl in Hi. injection Hi as <-. rewrite Forall_forall in Hall.
      apply Hall. by eapply list_elem_of_lookup_2.
    + simpl in Hi. apply (IH i j); [lia|done|done].
Qed.

(** X14.  On every page of the public listing the featured events come
    first: no event that is not featured is listed before a featured
    one. *)
Theorem getEvents_featured_first db q i j a b :
  (i < j)%nat →
  listedEvents (exec (getEvents q) db).2 !! i = Some a →
  listedEvents (exec (getEvents q) db).2 !! j = Some b →
  Event.featured b = true → Event.featured a = true.
Proof.
  intros Hij. rewrite getEvents_listed.
  set (L := Pos.to_nat _). set (s := skipOf _ _).
  intros Hi Hj.
  apply lookup_take_Some in Hi as [Hi _], Hj as [Hj _].
  rewrite lookup_drop in Hi, Hj.
  rewrite list_lookup_fmap in Hi, Hj.
  destruct (sortedEvents (getEventsFilter q) db !! (s + i)%nat)
    as [a'|] eqn:Ha; [|discriminate].
  destruct (sortedEvents (getEventsFilter q) db !! (s + j)%nat)
    as [b'|] eqn:Hb; [|discriminate].
  simpl in Hi, Hj. injection Hi as <-. injection Hj as <-. simpl.
  assert (StronglySorted featuredFirst (sortedEvents (getEventsFilter q) db))
    as Hs.
  { apply Sorted_StronglySorted; [apply _|].
    eapply Sorted_weaken; [|apply Sorted_merge_sort, _].
    intros x y. apply sortKeyLe_featuredFirst. }
  apply (StronglySorted_lookup featuredFirst _ (s + i) (s + j) a' b' Hs);
    [lia|done|done].
Qed.

Lemma getEvents_featured_first_witness :
  Event.featured (Event.without_fullDescription Catalogue.paradeFeatured)
    = true.
Proof.
  apply (getEvents_featured_first Catalogue.twoFeatured
           (mkListQuery None None None (Some "all")) 0 1
           (Event.without_fullDescription Catalogue.paradeFeatured)
           Sample.gala);
    [lia|vm_compute; reflexivity..].
Defined.

(** ** The registration listings *)

Lemma matchingRegs_In f db r :
  In r (matchingRegs f db) ↔
  In r (registrations db) ∧
  (∀ ev, rf_event f = Some ev → EventRegistration.event r = ev) ∧
  (∀ s, rf_status f = Some s →
        regStatusToString (EventRegistration.status r) = s).
Proof.
  unfold matchingRegs, matchesReg. rewrite filter_In, andb_true_iff.
  destruct (rf_event f) as [ev|], (rf_status f) as [s|];
    rewrite ?Nat.eqb_eq, ?String.eqb_eq; split;
    try (intros (? & ? & ?); repeat split; try done;
         try (by intros ? [= <-]); try (by intros ? [=]); eauto).
Qed.

Lemma getEventRegistrations_items id page limit status db :
  itemsOf (getEventRegistrations id page limit status db) =
    take (Pos.to_nat (default 20%positive limit))
      (drop (skipOf (default 1%positive page) (default 20%positive limit))
         (rev (matchingRegs (mkRegFilter (Some id) (statusFilter status)) db))).
Proof. reflexivity. Qed.

(** X15.  [getEventRegistrations] answers 200 whether the event exists or
    not.  Every registration it lists is stored, belongs to the event and,
    when a status other than the empty string and [all] is asked for, has
    that status; [total] counts those registrations, and the pages 1 to
    [pages] list all of them, the newest first. *)
Theorem getEventRegistrations_lists id limit status db :
  let f := mkRegFilter (Some id) (statusFilter status) in
  let page p := getEventRegistrations id (Some p) limit status db in
  (∀ p, r_statusCode (page p) = 200%nat) ∧
  (∀ p r, In r (itemsOf (page p)) →
          In r (registrations db) ∧ EventRegistration.event r = id ∧
          (∀ s, statusFilter status = Some s →
                regStatusToString (EventRegistration.status r) = s)) ∧
  (∀ p, pg_total <$> r_data (page p) = Some (List.length (matchingRegs f db))) ∧
  List.concat (map (λ p, itemsOf (page p))
                 (pageNumbers (pageCount (List.length (matchingRegs f db))
                                 (default 20%positive limit)))) =
    rev (matchingRegs f db).
Proof.
  intros f page. split; [done|]. split; [|split; [done|]].
  - intros p r Hin. unfold page in Hin.
    rewrite getEventRegistrations_items in Hin.
    apply list_elem_of_In, subseteq_take, subseteq_drop in Hin.
    apply list_elem_of_In, in_rev, matchingRegs_In in Hin
      as (Hin & Hev & Hst).
    split; [done|]. split; [by apply Hev|exact Hst].
  - erewrite map_ext;
      [|intros p; unfold page; apply getEventRegistrations_items].
    rewrite <- (length_rev (matchingRegs f db)). apply pages_cover.
Qed.

Example getEventRegistrations_of_the_walk :
  itemsOf (getEventRegistrations 1 None None (Some "waitlisted")
             Sample.afterBob) =
    [EventRegistration.mk 101 1 "Bob" "Baker" "bob@example.com" None None
       "PV-PRI-D4E5F6" RegStatus.waitlisted PaymentStatus.pending 0] ∧
  itemsOf (getEventRegistrations 9 None None (Some "") Sample.afterBob) = [] ∧
  map EventRegistration._id
      (itemsOf (getEventRegistrations 1 None None (Some "all")
                  Sample.afterBob)) = [101; 100]%nat.
Proof. vm_compute. auto. Qed.

(** X16.  In every state reached from the empty store, each item of
    [getAllRegistrations] carries its populated event: the id, title, date
    and slug of the stored event the registration refers to; the populated
    event is never null. *)
Theorem getAllRegistrations_populated reqs page limit status eventId r s :
  In (r, s) (itemsOf (getAllRegistrations page limit status eventId
                        (run reqs emptyDb))) →
  ∃ e, events (run reqs emptyDb) !! EventRegistration.event r = Some e ∧
       s = Some (mkSummary (EventRegistration.event r) (Event.title e)
                   (Event.date e) (Event.slug e)).
Proof.
  destruct (run_consistent reqs emptyDb emptyDb_consistent)
    as (Hids & _ & _ & _ & _ & Hor).
  set (db := run reqs emptyDb) in *.
  intros Hin. unfold itemsOf, getAllRegistrations in Hin. simpl in Hin.
  apply list_elem_of_In, list_elem_of_fmap in Hin as (r' & Heq & Hin).
  unfold populateEvent in Heq. injection Heq as -> ->.
  apply subseteq_take, subseteq_drop in Hin.
  apply list_elem_of_In, in_rev, matchingRegs_In in Hin as (Hin & _).
  unfold noOrphans in Hor. rewrite Forall_forall in Hor.
  destruct (Hor r' (proj2 (list_elem_of_In _ _) Hin)) as [e He].
  exists e. split; [done|]. rewrite He. simpl.
  by destruct (Hids _ _ He) as [-> _].
Qed.

Lemma getAllRegistrations_populated_witness :
  ∃ e, events (run Catalogue.opening emptyDb)
         !! EventRegistration.event Catalogue.aliceAtPicnic = Some e ∧
       Some (mkSummary 0 "Summer Picnic & BBQ!" "2024-08-10"
               "summer-picnic-bbq") =
       Some (mkSummary (EventRegistration.event Catalogue.aliceAtPicnic)
               (Event.title e) (Event.date e) (Event.slug e)).
Proof.
  apply (getAllRegistrations_populated Catalogue.opening None None None None
           Catalogue.aliceAtPicnic).
  vm_compute. left. reflexivity.
Defined.

(** ** The statistics *)

Lemma count_by_status (l : list Event.t) :
  List.length l =
    list_sum (map (λ s, List.length
                          (List.filter
                             (λ e, EventStatus.eqb (Event.status e) s) l))
                  allStatuses).
Proof.
  induction l as [|e l IH]; [reflexivity|]. simpl in *.
  destruct (Event.status e); simpl; lia.
Qed.

Lemma byStatus_lookup db s :
  (foldl (λ acc stat, <[stat.1 := stat.2]> acc) ∅
         (Event_aggregateByStatus db) : gmap string nat)
    !! EventStatus.toString s =
  if Nat.eqb (countStatus s db) 0 then None else Some (countStatus s db).
Proof.
  unfold Event_aggregateByStatus. simpl.
  destruct (Nat.eqb (countStatus EventStatus.draft db) 0) eqn:H1,
           (Nat.eqb (countStatus EventStatus.published db) 0) eqn:H2,
           (Nat.eqb (countStatus EventStatus.cancelled db) 0) eqn:H3,
           (Nat.eqb (countStatus EventStatus.completed db) 0) eqn:H4;
    simpl; destruct s; simpl; rewrite ?H1, ?H2, ?H3, ?H4;
    repeat (rewrite lookup_insert; case_decide; try congruence);
    rewrite ?lookup_empty; reflexivity.
Qed.

(** X17.  In the statistics, [byStatus] has a key for a status exactly when
    some event has it, and then holds the number of those events; the
    counts add up to [total]; [totalAttendees] is the number of confirmed
    registrations of all events and never exceeds [totalRegistrations]. *)
Theorem getEventStats_counts db :
  ∃ st, r_data (getEventStats db) = Some st ∧
    (∀ s, st_byStatus st !! EventStatus.toString s =
          if Nat.eqb (countStatus s db) 0 then None
          else Some (countStatus s db)) ∧
    list_sum (map (λ s, default 0%nat
                          (st_byStatus st !! EventStatus.toString s))
                  allStatuses) = st_total st ∧
    st_totalAttendees st =
      List.length (List.filter
                     (λ r, RegStatus.eqb (EventRegistration.status r)
                                         RegStatus.confirmed)
                     (registrations db)) ∧
    (st_totalAttendees st ≤ st_totalRegistrations st)%nat.
Proof.
  pose proof (byStatus_lookup db) as Hl.
  set (m := foldl (λ acc stat, <[stat.1 := stat.2]> acc) ∅
                  (Event_aggregateByStatus db) : gmap string nat) in *.
  exists (mkStats (List.length (allEvents db)) m
            (List.length (registrations db))
            (EventRegistration_countDocuments
               (mkRegFilter None (Some "confirmed")) db)).
  split; [reflexivity|].
  cbn [st_byStatus st_total st_totalAttendees st_totalRegistrations].
  split; [exact Hl|]. split; [|split].
  - rewrite (count_by_status (allEvents db)).
    unfold allStatuses. cbn [map list_sum]. rewrite !Hl.
    fold (countStatus EventStatus.draft db)
         (countStatus EventStatus.published db)
         (countStatus EventStatus.cancelled db)
         (countStatus EventStatus.completed db).
    repeat match goal with
           | |- context [Nat.eqb ?n 0] =>
               destruct (Nat.eqb_spec n 0) as [->|_]
           end; reflexivity.
  - unfold EventRegistration_countDocuments, matchingRegs. f_equal.
    apply filter_ext. intros r. unfold matchesReg. simpl.
    by destruct (EventRegistration.status r).
  - unfold EventRegistration_countDocuments, matchingRegs.
    apply filter_length_le.
Qed.

(** ** More on [registerForEvent] *)

(** X18.  A registration request is all or nothing: an answer that is not
    a success leaves both stores as they were; a success is answered 201,
    appends exactly one registration, for the event asked for, and leaves
    every other event as it was. *)
Theorem register_all_or_nothing id body rnd db :
  (success (exec (registerForEvent id body rnd) db).2 = false →
   (exec (registerForEvent id body rnd) db).1 = db) ∧
  (success (exec (registerForEvent id body rnd) db).2 = true →
   statusCode (exec (registerForEvent id body rnd) db).2 = 201%nat ∧
   (∃ r, registrations (exec (registerForEvent id body rnd) db).1 =
           (registrations db ++ [r])%list ∧
         EventRegistration.event r = id) ∧
   (∀ j, j ≠ id →
         events (exec (registerForEvent id body rnd) db).1 !! j =
           events db !! j)).
Proof.
  destruct (register_outcome id body rnd db)
    as [resp Hno|event r _ _ Hr _ _ _ _ _|event r _ _ Hr _ _ _ _ _]; simpl.
  - split; [done|congruence].
  - split; [discriminate|]. intros _. split; [done|]. split; [eauto|].
    intros j Hj. by rewrite lookup_alter_ne.
  - split; [discriminate|]. intros _. split; [done|]. split; [eauto|done].
Qed.

Lemma capacityReached_isSoldOut e : capacityReached e = Event.isSoldOut e.
Proof.
  unfold capacityReached, Event.isSoldOut, Event.maxAttendees_truthy.
  by destruct (Event.maxAttendees e).
Qed.

(** X19.  A successful registration is waitlisted exactly when the event
    reported itself sold out (the virtual [isSoldOut]) before the request,
    and confirmed exactly when it did not; the reply carries
    [isWaitlisted: true] in the first case only. *)
Theorem register_waitlists_when_sold_out id body rnd db event :
  events db !! id = Some event →
  success (exec (registerForEvent id body rnd) db).2 = true →
  ∃ r w, data (exec (registerForEvent id body rnd) db).2 =
           RegistrationData r w ∧
         (Event.isSoldOut event = true →
          EventRegistration.status r = RegStatus.waitlisted ∧ w = Some true) ∧
         (Event.isSoldOut event = false →
          EventRegistration.status r = RegStatus.confirmed ∧ w = None).
Proof.
  intros Hev.
  destruct (register_outcome id body rnd db)
    as [resp Hno|ev r Hev' Hcap _ _ Hs _ _ _|ev r Hev' Hcap _ _ Hs _ _ _];
    simpl.
  - congruence.
  - intros _. rewrite Hev in Hev'. injection Hev' as <-.
    rewrite capacityReached_isSoldOut in Hcap.
    exists r, None. split; [done|]. split; [congruence|done].
  - intros _. rewrite Hev in Hev'. injection Hev' as <-.
    rewrite capacityReached_isSoldOut in Hcap.
    exists r, (Some true). split; [done|]. split; [done|congruence].
Qed.

Lemma register_waitlists_when_sold_out_witness :
  ∃ r w, data (exec (registerForEvent 1 Sample.bob "D4E5F6")
                    Sample.afterAlice).2 = RegistrationData r w ∧
         (Event.isSoldOut Scenario.walkFull = true →
          EventRegistration.status r = RegStatus.waitlisted ∧ w = Some true) ∧
         (Event.isSoldOut Scenario.walkFull = false →
          EventRegistration.status r = RegStatus.confirmed ∧ w = None).
Proof.
  apply (register_waitlists_when_sold_out 1 Sample.bob "D4E5F6"
           Sample.afterAlice Scenario.walkFull); vm_compute; reflexivity.
Defined.

Lemma register_passes_checks id body rnd db event :
  events db !! id = Some event →
  Event.status event = EventStatus.published →
  Event.registrationOpen event = true →
  EventRegistration_findOne id (email body) db = None →
  ∃ st ps,
    exec (registerForEvent id body rnd) db =
      match EventRegistration_create
              (EventRegistration.mkDoc id (firstName body) (lastName body)
                 (email body) (phone body) (accessibilityNeeds body) st ps
                 (amountDue event)) rnd db with
      | (db', inl e) => (db', registerCatch e)
      | (db', inr r) =>
          if capacityReached event then (db', waitlistedReply r)
          else (Event_incCurrentAttendees id 1 db', confirmedReply r)
      end.
Proof.
  intros Hev Hst Hopen Hdup. unfold registerForEvent. simpl.
  rewrite Hev. simpl. rewrite Hst, Hopen. simpl. rewrite Hdup. simpl.
  fold (capacityReached event). fold (amountDue event).
  destruct (capacityReached event); simpl.
  - exists (Some RegStatus.waitlisted), None.
    by destruct (EventRegistration_create _ rnd db) as [db' [e|r]].
  - exists None, (Some (if Event.isFree event then PaymentStatus.paid
                        else PaymentStatus.pending)).
    by destruct (EventRegistration_create _ rnd db) as [db' [e|r]].
Qed.

(** X20.  The ticket of a new registration is [PV-], the first three
    characters of the slug of the event in upper case, a dash and the
    random part.  When that ticket is already taken, the request that
    passes every check and validation is answered 500 and changes
    nothing; no second ticket is drawn. *)
Theorem register_ticket id body rnd db event :
  events db !! id = Some event →
  Event.status event = EventStatus.published →
  Event.registrationOpen event = true →
  EventRegistration_findOne id (email body) db = None →
  let ticket :=
    "PV-" ++ Js.toUpperCase (Js.prefix 3 (Event.slug event)) ++ "-" ++ rnd in
  (∀ r w, data (exec (registerForEvent id body rnd) db).2 =
            RegistrationData r w →
          EventRegistration.ticketId r = ticket) ∧
  (ticketTaken ticket db = true →
   Validate.errorOf (Validate.firstName (firstName body)) = [] →
   Validate.errorOf (Validate.lastName (lastName body)) = [] →
   Validate.errorOf (Validate.email (email body)) = [] →
   Validate.errorOf (Validate.phone (phone body)) = [] →
   Validate.errorOf (Validate.accessibilityNeeds (accessibilityNeeds body))
     = [] →
   exec (registerForEvent id body rnd) db =
     (db, failure 500 "Server error while registering for event")).
Proof.
  intros Hev Hst Hopen Hdup ticket.
  destruct (register_passes_checks id body rnd db event Hev Hst Hopen Hdup)
    as (st & ps & ->).
  split.
  - intros r w.
    destruct (EventRegistration_create _ rnd db) as [db' [e|r']] eqn:Hc.
    + by destruct e.
    + apply create_ticket in Hc as (_ & _ & _ & Ht & _). simpl in Ht.
      rewrite Hev in Ht.
      destruct (capacityReached event); simpl; by intros [= <- _].
  - intros Htaken H1 H2 H3 H4 H5.
    apply errorOf_nil in H1 as [fn H1], H2 as [ln H2], H3 as [em H3],
      H4 as [ph H4], H5 as [ac H5].
    unfold EventRegistration_create. simpl.
    rewrite H1, H2, H3, H4, H5, Hev.
    fold ticket. unfold generateTicketId. fold ticket. by rewrite Htaken.
Qed.

Lemma register_ticket_witness :
  (∀ r w, data (exec (registerForEvent 1 Sample.carol "A1B2C3")
                     Sample.afterAlice).2 = RegistrationData r w →
          EventRegistration.ticketId r =
            "PV-" ++ Js.toUpperCase (Js.prefix 3 (Event.slug Scenario.walkFull))
                  ++ "-" ++ "A1B2C3") ∧
  (ticketTaken ("PV-" ++ Js.toUpperCase
                           (Js.prefix 3 (Event.slug Scenario.walkFull))
                      ++ "-" ++ "A1B2C3") Sample.afterAlice = true →
   Validate.errorOf (Validate.firstName (firstName Sample.carol)) = [] →
   Validate.errorOf (Validate.lastName (lastName Sample.carol)) = [] →
   Validate.errorOf (Validate.email (email Sample.carol)) = [] →
   Validate.errorOf (Validate.phone (phone Sample.carol)) = [] →
   Validate.errorOf
     (Validate.accessibilityNeeds (accessibilityNeeds Sample.carol)) = [] →
   exec (registerForEvent 1 Sample.carol "A1B2C3") Sample.afterAlice =
     (Sample.afterAlice, failure 500 "Server error while registering for event")).
Proof.
  apply (register_ticket 1 Sample.carol "A1B2C3" Sample.afterAlice
           Scenario.walkFull); vm_compute; reflexivity.
Defined.

Example register_ticket_collision :
  exec (registerForEvent 1 Sample.carol "A1B2C3") Sample.afterAlice =
    (Sample.afterAlice, failure 500 "Server error while registering for event").
Proof. vm_compute. reflexivity. Qed.

(** ** Emails *)

Lemma listOf_revString acc s :
  list_ascii_of_string (Js.revString acc s) =
    (rev (list_ascii_of_string s) ++ list_ascii_of_string acc)%list.
Proof.
  revert acc. induction s as [|c t IH]; intros acc; [reflexivity|].
  simpl. rewrite IH. simpl. by rewrite <- app_assoc.
Qed.

Lemma listOf_trimStart s :
  list_ascii_of_string (Js.trimStart s) = dropSpaces (list_ascii_of_string s).
Proof.
  induction s as [|c t IH]; [reflexivity|]. simpl.
  by destruct (Js.isSpace c).
Qed.

Lemma listOf_trim s :
  list_ascii_of_string (Js.trim s) =
    rev (dropSpaces (rev (dropSpaces (list_ascii_of_string s)))).
Proof.
  unfold Js.trim.
  rewrite listOf_revString, listOf_trimStart, listOf_revString,
    listOf_trimStart. simpl. by rewrite !app_nil_r.
Qed.

Lemma listOf_mapChars f s :
  list_ascii_of_string (Js.mapChars f s) = map f (list_ascii_of_string s).
Proof. induction s as [|c t IH]; [reflexivity|]. simpl. by rewrite IH. Qed.

Lemma listOf_inj s t :
  list_ascii_of_string s = list_ascii_of_string t → s = t.
Proof.
  intros H. rewrite <- (string_of_list_ascii_of_string s),
    <- (string_of_list_ascii_of_string t). by rewrite H.
Qed.

Lemma dropSpaces_suffix l : ∃ p, l = (p ++ dropSpaces l)%list.
Proof.
  induction l as [|c t [p Hp]]; [by exists []|]. simpl.
  destruct (Js.isSpace c); [|by exists []].
  exists (c :: p). simpl. by rewrite <- Hp.
Qed.

Lemma dropSpaces_headOk l : headOk (dropSpaces l).
Proof.
  induction l as [|c t IH]; [done|]. simpl.
  by destruct (Js.isSpace c) eqn:Hc.
Qed.

Lemma dropSpaces_id l : headOk l → dropSpaces l = l.
Proof. destruct l as [|c t]; [done|]. simpl. by intros ->. Qed.

Lemma headOk_app_l a b : headOk (a ++ b) → headOk a.
Proof. by destruct a. Qed.

Lemma trim_list_idempotent l :
  rev (dropSpaces (rev (dropSpaces
    (rev (dropSpaces (rev (dropSpaces l))))))) =
  rev (dropSpaces (rev (dropSpaces l))).
Proof.
  set (y := dropSpaces l). set (z := dropSpaces (rev y)).
  assert (headOk (rev z)) as Hw.
  { destruct (dropSpaces_suffix (rev y)) as [p Hp]. fold z in Hp.
    apply (headOk_app_l (rev z) (rev p)). rewrite <- rev_app_distr, <- Hp.
    rewrite rev_involutive. apply dropSpaces_headOk. }
  rewrite (dropSpaces_id (rev z) Hw), rev_involutive.
  by rewrite (dropSpaces_id z (dropSpaces_headOk _)).
Qed.

Lemma isSpace_lowerChar c : Js.isSpace (Js.lowerChar c) = Js.isSpace c.
Proof. destruct c as [[] [] [] [] [] [] [] []]; reflexivity. Qed.

Lemma lowerChar_idempotent c : Js.lowerChar (Js.lowerChar c) = Js.lowerChar c.
Proof. destruct c as [[] [] [] [] [] [] [] []]; reflexivity. Qed.

Lemma dropSpaces_lower l :
  dropSpaces (map Js.lowerChar l) = map Js.lowerChar (dropSpaces l).
Proof.
  induction l as [|c t IH]; [reflexivity|]. simpl.
  rewrite isSpace_lowerChar. by destruct (Js.isSpace c).
Qed.

Lemma trim_idempotent s : Js.trim (Js.trim s) = Js.trim s.
Proof.
  apply listOf_inj. rewrite !listOf_trim. apply trim_list_idempotent.
Qed.

Lemma trim_toLowerCase s :
  Js.trim (Js.toLowerCase s) = Js.toLowerCase (Js.trim s).
Proof.
  apply listOf_inj. unfold Js.toLowerCase.
  rewrite listOf_trim, !listOf_mapChars, listOf_trim.
  by rewrite dropSpaces_lower, <- map_rev, dropSpaces_lower, <- map_rev.
Qed.

Lemma toLowerCase_idempotent s :
  Js.toLowerCase (Js.toLowerCase s) = Js.toLowerCase s.
Proof.
  apply listOf_inj. unfold Js.toLowerCase. rewrite !listOf_mapChars, map_map.
  apply map_ext. intros c. apply lowerChar_idempotent.
Qed.

(** X21.  The setters of the [email] path are idempotent: an email that
    has been trimmed and put in lower case is left as it is by a second
    pass, so the stored form of an email is a fixed point of the cast that
    queries apply. *)
Theorem castEmail_idempotent s :
  EventRegistration.castEmail (EventRegistration.castEmail s) =
    EventRegistration.castEmail s.
Proof.
  unfold EventRegistration.castEmail.
  rewrite trim_toLowerCase, trim_idempotent.
  apply toLowerCase_idempotent.
Qed.

Lemma register_success_checks id body rnd db :
  success (exec (registerForEvent id body rnd) db).2 = true →
  ∃ event, events db !! id = Some event ∧
           Event.status event = EventStatus.published ∧
           Event.registrationOpen event = true ∧
           EventRegistration_findOne id (email body) db = None.
Proof.
  unfold registerForEvent. simpl.
  destruct (events db !! id) as [event|] eqn:Hev; simpl; [|discriminate].
  destruct (Event.status event) eqn:Hst; simpl; try discriminate.
  destruct (Event.registrationOpen event) eqn:Hopen; simpl; [|discriminate].
  destruct (EventRegistration_findOne id (email body) db) eqn:Hdup; simpl;
    [discriminate|].
  intros _. exists event. auto.
Qed.

Lemma find_app_last {B} (p : B → bool) (l : list B) (x : B) :
  List.find p l = None → p x = true → List.find p (l ++ [x]) = Some x.
Proof.
  intros Hn Hx. induction l as [|y l IH]; simpl in *; [by rewrite Hx|].
  destruct (p y); [discriminate|]. by apply IH.
Qed.

(** X22.  After a successful registration, a query for the event and the
    email as stored finds that registration: the stored email is in the
    form that queries are cast to, and no older registration of the event
    has it. *)
Theorem registered_email_is_found id body rnd db :
  success (exec (registerForEvent id body rnd) db).2 = true →
  ∃ r w, data (exec (registerForEvent id body rnd) db).2 =
           RegistrationData r w ∧
         EventRegistration.castEmail (EventRegistration.email r) =
           EventRegistration.email r ∧
         EventRegistration_findOne id (Some (EventRegistration.email r))
           (exec (registerForEvent id body rnd) db).1 = Some r.
Proof.
  intros Hok.
  destruct (register_success_checks id body rnd db Hok)
    as (event & Hev & Hst & Hopen & Hdup).
  assert (∀ r db', registrations db' = (registrations db ++ [r])%list →
            EventRegistration.event r = id →
            Validate.email (email body) = inr (EventRegistration.email r) →
            EventRegistration.castEmail (EventRegistration.email r) =
              EventRegistration.email r ∧
            EventRegistration_findOne id (Some (EventRegistration.email r))
              db' = Some r) as Hfound.
  { intros r db' Hregs Hr Hem.
    apply validated_email in Hem as (s & Hs & Hcast).
    assert (EventRegistration.castEmail (EventRegistration.email r) =
            EventRegistration.email r) as Hfix.
    { rewrite Hcast. unfold EventRegistration.castEmail.
      rewrite trim_toLowerCase, trim_idempotent.
      apply toLowerCase_idempotent. }
    split; [exact Hfix|].
    unfold EventRegistration_findOne in *. rewrite Hregs, Hfix.
    rewrite Hs, <- Hcast in Hdup.
    apply find_app_last; [exact Hdup|].
    by rewrite Hr, Nat.eqb_refl, String.eqb_refl. }
  revert Hok.
  destruct (register_outcome id body rnd db)
    as [resp Hno|ev r _ _ Hr _ _ _ _ Hem|ev r _ _ Hr _ _ _ _ Hem]; simpl.
  - congruence.
  - intros _. exists r, None. split; [done|].
    by apply (Hfound r (Event_incCurrentAttendees id 1 (inserted r db))).
  - intros _. exists r, (Some true). split; [done|].
    by apply (Hfound r (inserted r db)).
Qed.

Lemma registered_email_is_found_witness :
  ∃ r w, data (exec (registerForEvent 1 Sample.carol "G7H8I9")
                    Sample.afterAlice).2 = RegistrationData r w ∧
         EventRegistration.castEmail (EventRegistration.email r) =
           EventRegistration.email r ∧
         EventRegistration_findOne 1 (Some (EventRegistration.email r))
           (exec (registerForEvent 1 Sample.carol "G7H8I9")
                 Sample.afterAlice).1 = Some r.
Proof.
  apply (registered_email_is_found 1 Sample.carol "G7H8I9" Sample.afterAlice).
  vm_compute. reflexivity.
Defined.

(** *** The pattern of a valid email *)

Lemma dotThenMore_iff s :
  EventRegistration.dotThenMore s = true ↔
  ∃ b c, s = b ++ "." ++ c ∧ c ≠ "".
Proof.
  induction s as [|x t IH]; simpl.
  - split; [discriminate|]. intros (b & c & H & _). by destruct b.
  - rewrite orb_true_iff, andb_true_iff, IH, negb_true_iff,
      String.eqb_neq. split.
    + intros [[Hx Ht]|(b & c & -> & Hc)].
      * apply Ascii.eqb_eq in Hx. subst x. by exists "", t.
      * by exists (String x b), c.
    + intros (b & c & H & Hc). destruct b as [|y b]; simpl in H.
      * injection H as -> ->. left. by rewrite Ascii.eqb_refl.
      * injection H as -> ->. right. eauto.
Qed.

Lemma domainPart_iff s :
  EventRegistration.domainPart s = true ↔
  ∃ b c, s = b ++ "." ++ c ∧ b ≠ "" ∧ c ≠ "".
Proof.
  destruct s as [|x t]; simpl.
  - split; [discriminate|]. intros (b & c & H & _). by destruct b.
  - rewrite dotThenMore_iff. split.
    + intros (b & c & -> & Hc). by exists (String x b), c.
    + intros (b & c & H & Hb & Hc). destruct b as [|y b]; [done|].
      simpl in H. injection H as -> ->. eauto.
Qed.

Lemma atThenDomain_iff s :
  EventRegistration.atThenDomain s = true ↔
  ∃ a b c, s = a ++ "@" ++ b ++ "." ++ c ∧ b ≠ "" ∧ c ≠ "".
Proof.
  induction s as [|x t IH]; simpl.
  - split; [discriminate|]. intros (a & b & c & H & _). by destruct a.
  - rewrite orb_true_iff, andb_true_iff, IH, domainPart_iff. split.
    + intros [[Hx (b & c & -> & Hb & Hc)]|(a & b & c & -> & Hb & Hc)].
      * apply Ascii.eqb_eq in Hx. subst x. by exists "", b, c.
      * by exists (String x a), b, c.
    + intros (a & b & c & H & Hb & Hc). destruct a as [|y a]; simpl in H.
      * injection H as -> ->. left. rewrite Ascii.eqb_refl.
        split; [done|]. by exists b, c.
      * injection H as -> ->. right. eauto 6.
Qed.

(** X23.  The validator of the email path accepts exactly the strings
    without white space of the form [local@domain.rest] with none of the
    three parts empty (the language of [/^\S+@\S+\.\S+$/]). *)
Theorem emailMatch_iff s :
  EventRegistration.emailMatch s = true ↔
  noSpace s = true ∧
  ∃ a b c, s = a ++ "@" ++ b ++ "." ++ c ∧ a ≠ "" ∧ b ≠ "" ∧ c ≠ "".
Proof.
  unfold EventRegistration.emailMatch. fold (noSpace s).
  rewrite andb_true_iff. apply and_iff_compat_l.
  destruct s as [|x t].
  - split; [discriminate|]. intros (a & b & c & H & Ha & _).
    by destruct a.
  - rewrite atThenDomain_iff. split.
    + intros (a & b & c & -> & Hb & Hc). by exists (String x a), b, c.
    + intros (a & b & c & H & Ha & Hb & Hc). destruct a as [|y a]; [done|].
      simpl in H. injection H as -> ->. eauto 6.
Qed.

(** ** More on [cancelRegistration] and [updateEvent] *)

(** X24.  Cancelling a registration that exists deletes nothing and
    touches nothing else: the store holds as many registrations as before,
    the one cancelled is found with status cancelled and its other fields
    as they were, every other registration is still there unchanged, and
    the events other than its own are as they were. *)
Theorem cancel_touches_one_registration rid r db :
  EventRegistration_findById rid db = Some r →
  List.length (registrations (exec (cancelRegistration rid) db).1) =
    List.length (registrations db) ∧
  EventRegistration_findById rid (exec (cancelRegistration rid) db).1 =
    Some (EventRegistration.set_status RegStatus.cancelled r) ∧
  (∀ r', In r' (registrations db) → EventRegistration._id r' ≠ rid →
         In r' (registrations (exec (cancelRegistration rid) db).1)) ∧
  (∀ j, j ≠ EventRegistration.event r →
        events (exec (cancelRegistration rid) db).1 !! j = events db !! j).
Proof.
  intros Hf. rewrite (cancel_found db rid r Hf). simpl.
  pose proof (findById_id rid r db Hf) as Hid.
  split; [|split; [|split]].
  - unfold EventRegistration_save. simpl. apply length_map.
  - change (EventRegistration_findById rid
              (EventRegistration_save
                 (EventRegistration.set_status RegStatus.cancelled r) db) =
            Some (EventRegistration.set_status RegStatus.cancelled r)).
    rewrite findById_save, Hf. simpl. by rewrite Nat.eqb_refl.
  - intros r' Hin Hne. unfold EventRegistration_save. simpl.
    apply in_map_iff. exists r'. split; [|done]. simpl.
    rewrite Hid. by destruct (Nat.eqb_spec (EventRegistration._id r') rid).
  - intros j Hj. by rewrite lookup_alter_ne.
Qed.

Lemma cancel_touches_one_registration_witness :
  List.length (registrations (exec (cancelRegistration 100) Sample.afterBob).1)
    = List.length (registrations Sample.afterBob) ∧
  EventRegistration_findById 100
    (exec (cancelRegistration 100) Sample.afterBob).1 =
    Some (EventRegistration.set_status RegStatus.cancelled
            (EventRegistration.mk 100 1 "Alice" "Archer" "alice@example.com"
               (Some "555-0100") None "PV-PRI-A1B2C3" RegStatus.confirmed
               PaymentStatus.paid 0)) ∧
  (∀ r', In r' (registrations Sample.afterBob) →
         EventRegistration._id r' ≠ 100%nat →
         In r' (registrations
                  (exec (cancelRegistration 100) Sample.afterBob).1)) ∧
  (∀ j, j ≠ 1%nat →
        events (exec (cancelRegistration 100) Sample.afterBob).1 !! j =
          events Sample.afterBob !! j).
Proof.
  apply (cancel_touches_one_registration 100
           (EventRegistration.mk 100 1 "Alice" "Archer" "alice@example.com"
              (Some "555-0100") None "PV-PRI-A1B2C3" RegStatus.confirmed
              PaymentStatus.paid 0) Sample.afterBob).
  vm_compute. reflexivity.
Defined.



(** ** The virtuals of an event *)

(** X26.  The two virtuals agree: [spotsLeft] is null exactly when
    [maxAttendees] is null or 0, and then the event is never sold out;
    otherwise the event is sold out exactly when [spotsLeft] is not
    positive. *)
Theorem isSoldOut_spotsLeft e :
  (Event.spotsLeft e = None ↔
   Event.maxAttendees e = None ∨ Event.maxAttendees e = Some 0) ∧
  (Event.spotsLeft e = None → Event.isSoldOut e = false) ∧
  (∀ n, Event.spotsLeft e = Some n →
        (Event.isSoldOut e = true ↔ n <= 0)).
Proof.
  unfold Event.spotsLeft, Event.isSoldOut, Event.maxAttendees_truthy.
  destruct (Event.maxAttendees e) as [m|]; simpl.
  - destruct (Z.eqb_spec m 0) as [->|Hm]; simpl.
    + split; [split; auto|]. split; [done|discriminate].
    + split; [split; [discriminate|intros [|[=]]; done]|].
      split; [discriminate|]. intros n [= <-]. rewrite Z.leb_le. lia.
  - split; [split; auto|]. split; [done|discriminate].
Qed.

(** ** The object of validation errors *)

Lemma formatValidationErrors_snoc errs p m :
  formatValidationErrors (errs ++ [(p, m)]) =
    <[p := m]> (formatValidationErrors errs).
Proof. unfold formatValidationErrors. by rewrite foldl_app. Qed.

(** X27.  [formatValidationErrors] turns the list of errors into an object
    with one key for each path: when no path occurs twice, the object
    holds under each path exactly the message of its error; when a path
    occurs again, the later message replaces the earlier one. *)
Theorem formatValidationErrors_lookup errs :
  (NoDup (map fst errs) →
   ∀ p m, formatValidationErrors errs !! p = Some m ↔ In (p, m) errs) ∧
  (∀ p m, formatValidationErrors (errs ++ [(p, m)]) !! p = Some m).
Proof.
  split.
  - induction errs as [|[p0 m0] errs IH] using rev_ind.
    + intros _ p m. unfold formatValidationErrors. simpl.
      rewrite lookup_empty. split; [discriminate|done].
    + rewrite map_app. simpl. intros Hnd p m.
      apply NoDup_app in Hnd as (Hnd & Hnot & _).
      rewrite formatValidationErrors_snoc, lookup_insert_Some, in_app_iff.
      specialize (IH Hnd p m). simpl. split.
      * intros [[-> ->]|[Hne Hl]]; [right; by left|left; by apply IH].
      * intros [Hin|[[= -> ->]|[]]]; [|by left].
        right. split; [|by apply IH]. intros ->.
        apply (Hnot p); [|by apply list_elem_of_singleton].
        apply list_elem_of_fmap. exists (p, m). split; [done|].
        by apply list_elem_of_In.
  - intros p m. rewrite formatValidationErrors_snoc. apply lookup_insert_eq.
Qed.
